(** * A shallow embedding of the GLB renderer (glb_renderer.go)

    The renderer loads a glTF document, keeps one transform per node,
    plays one animation clip at a time, resolves global node transforms
    through the parent chain and computes bone matrices for skinning.

    Go values are embedded as follows.
    - [int] indices are [Z]; a slice is a [list] whose capacity equals its
      length (every slice of the renderer comes from [make] or from a full
      read); lengths and loop counters are [nat].
    - A Go map is a [gmap]; [*Animation] is an [option Animation] (clips are
      never mutated after loading, so the pointer is only ever read).
    - A run-time panic and the exhaustion of the recursion budget of the
      model are results of their own, see [outcome].
    - [float32], [float64] and the functions of the mgl32, gltf/modeler and
      OpenGL packages are not part of the repository: they are the fields of
      the classes [Float32], [Mgl32] and [Modeler]. *)

From Stdlib Require Import ZArith Lia Bool Strings.Byte.
From stdpp Require Import base option list strings gmap pretty.

Local Open Scope Z_scope.

(** ** Results of a call *)

Inductive outcome (A : Type) : Type :=
  | Done (a : A)   (* the call returns [a] *)
  | Panic          (* run-time panic: index out of range, nil dereference *)
  | OutOfFuel.     (* the recursion budget of the model is used up *)
Arguments Done {A} a.
Arguments Panic {A}.
Arguments OutOfFuel {A}.

#[global] Instance outcome_ret : MRet outcome := @Done.
#[global] Instance outcome_bind : MBind outcome := λ A B f m,
  match m with
  | Done a => f a
  | Panic => Panic
  | OutOfFuel => OutOfFuel
  end.

(** [l[i]] in Go. *)
Definition at_index {A} (l : list A) (i : Z) : outcome A :=
  if i <? 0 then Panic
  else match l !! Z.to_nat i with
       | Some x => Done x
       | None => Panic
       end.

(** [len(l)] in Go. *)
Definition len {A} (l : list A) : Z := Z.of_nat (length l).

(** [l[lo:hi]] in Go, for a slice whose capacity is its length. *)
Definition slice {A} (l : list A) (lo hi : nat) : outcome (list A) :=
  if decide (lo ≤ hi ∧ hi ≤ length l)%nat
  then Done (take (hi - lo) (drop lo l))
  else Panic.

(** [string(v)] in Go for a uint8 [v]: the UTF-8 encoding of the code point
    [v], one byte below 128 and two bytes from 128 on. *)
Definition runeString (v : Z) : string :=
  if v <? 128 then String (Ascii.ascii_of_N (Z.to_N v)) EmptyString
  else String (Ascii.ascii_of_N (Z.to_N (192 + v / 64)))
         (String (Ascii.ascii_of_N (Z.to_N (128 + v mod 64))) EmptyString).

(** ** External packages *)

(** Machine floating point. [fltb a b] is [a < b]; [b > a] in the source is
    the same test. *)
Class Float32 := {
  float32 : Type;
  float64 : Type;
  f0 : float32;
  f1 : float32;
  fadd : float32 → float32 → float32;
  fsub : float32 → float32 → float32;
  fmul : float32 → float32 → float32;
  fdiv : float32 → float32 → float32;
  fltb : float32 → float32 → bool;
  (* float32(math.Mod(float64(a), float64(b))) *)
  fmod : float32 → float32 → float32;
  (* float32(d.Seconds()) for a duration [d] in nanoseconds *)
  seconds32 : Z → float32;
  d0 : float64;
  d1 : float64;
  f64_eqb : float64 → float64 → bool;      (* == on float64 *)
  float32_of_64 : float64 → float32;
  (* the unsafe cast of float32frombits *)
  float32frombits : Z → float32;
}.

(** mgl32.Vec3, mgl32.Quat, mgl32.Mat4. *)
Definition Vec3 `{Float32} : Type := float32 * float32 * float32.

Record Quat `{Float32} : Type := mkQuat { W : float32; V : Vec3 }.
Arguments mkQuat {_} W V.

(** A [Mat4] is an array of 16 floats in column-major order: its four
    columns. *)
Definition Vec4 `{Float32} : Type := float32 * float32 * float32 * float32.
Definition Mat4 `{Float32} : Type := Vec4 * Vec4 * Vec4 * Vec4.

Class Mgl32 `{Float32} := {
  Ident4 : Mat4;
  Mul4 : Mat4 → Mat4 → Mat4;                (* m1.Mul4(m2) *)
  Translate3D : float32 → float32 → float32 → Mat4;
  Scale3D : float32 → float32 → float32 → Mat4;
  QuatMat4 : Quat → Mat4;                    (* q.Mat4() *)
  QuatIdent : Quat;
  QuatSlerp : Quat → Quat → float32 → Quat;
}.

(** ** The glTF document (package gltf), as far as the renderer reads it *)

Inductive AccessorType := AccessorScalar | AccessorVec2 | AccessorVec3
  | AccessorVec4 | AccessorMat2 | AccessorMat3 | AccessorMat4.

Record Accessor := mkAccessor {
  aBufferView : option Z;
  aByteOffset : Z;
  aType : AccessorType;
  aCount : Z;
}.

Record BufferView := mkBufferView { bvBuffer : Z; bvByteOffset : Z }.

Record Buffer := mkBuffer { Data : list Byte.byte }.

Record Primitive := mkPrimitive {
  Attributes : gmap string Z;
  Indices : option Z;
}.

Record GltfMesh := mkGltfMesh { Primitives : list Primitive }.

Record GltfSkin := mkGltfSkin {
  sJoints : list Z;
  sInverseBindMatrices : option Z;
}.

(** [cTargetPath] is [channel.Target.Path], a [gltf.TRSProperty]: a uint8
    with the values TRSTranslation = 0, TRSRotation = 1, TRSScale = 2 and
    TRSWeights = 3. *)
Record GltfChannel := mkGltfChannel {
  cSampler : Z;
  cTargetNode : option Z;
  cTargetPath : Z;
}.

Record GltfSampler := mkGltfSampler { sInput : Z; sOutput : Z }.

Record GltfAnimation := mkGltfAnimation {
  gaName : string;
  gaChannels : list GltfChannel;
  gaSamplers : list GltfSampler;
}.

Record GltfNode `{Float32} := mkGltfNode {
  Children : list Z;
  nTranslation : float64 * float64 * float64;
  nRotation : float64 * float64 * float64 * float64;
  nScale : float64 * float64 * float64;
  nMesh : option Z;
  nSkin : option Z;
}.

Arguments mkGltfNode {_} _ _ _ _ _ _.

Record Document `{Float32} := mkDocument {
  Nodes : list GltfNode;
  dMeshes : list GltfMesh;
  dSkins : list GltfSkin;
  dAnimations : list GltfAnimation;
  Accessors : list Accessor;
  BufferViews : list BufferView;
  Buffers : list Buffer;
}.

Arguments mkDocument {_} _ _ _ _ _ _ _.

(** Package gltf/modeler: [None] is a returned error. The accessor is
    passed by its index in [doc.Accessors]. *)
Class Modeler `{Float32} := {
  ReadPosition : Document → Z → option (list Vec3);
  ReadIndices : Document → Z → option (list Z);
}.

(** ** sort.Search of the Go standard library

    [i, j := 0, n; for i < j { h := (i+j)/2; if !f(h) { i = h+1 } else
    { j = h } }; return i]. The interval shrinks at every turn, so [n]
    turns are enough. *)
Fixpoint search_loop (turns : nat) (f : nat → bool) (i j : nat) : nat :=
  match turns with
  | O => i
  | S turns' =>
      if (i <? j)%nat then
        let h := ((i + j) / 2)%nat in
        if negb (f h) then search_loop turns' f (h + 1)%nat j
        else search_loop turns' f i h
      else i
  end.

Definition sort_Search (n : nat) (f : nat → bool) : nat :=
  search_loop n f 0%nat n.

(** ** The renderer *)

Section Renderer.
Context {F32 : Float32} {M32 : Mgl32} {MOD : Modeler}.

(** The OpenGL object names (VAO, VBO, EBO, shader program, uniform
    locations) are handles into the driver and are left out. *)
Record Mesh := mkMesh {
  IndexCount : Z;
  HasIndices : bool;
  VertexCount : Z;
  mNodeIndex : Z;
  SkinIndex : Z;
}.

Record Skin := mkSkin {
  Joints : list Z;
  InverseBindMatrices : list Mat4;
}.

Record AnimationChannel := mkChannel {
  NodeIndex : Z;
  Path : string;
  Timestamps : list float32;
  Values : list float32;
}.

Record Animation := mkAnimation {
  Name : string;
  Channels : list AnimationChannel;
  Duration : float32;
}.

Record NodeTransform := mkNodeTransform {
  Translation : Vec3;
  Rotation : Quat;
  Scale : Vec3;
}.

Record GLBRenderer := mkRenderer {
  Meshes : list Mesh;
  TextureID : Z;
  TextureWidth : Z;
  TextureHeight : Z;
  Animations : gmap string Animation;
  NodeTransforms : list NodeTransform;
  BaseTransforms : list NodeTransform;
  CurrentAnim : option Animation;
  AnimStartTime : Z;                (* nanoseconds *)
  AnimLoop : bool;
  Doc : option Document;
  Skins : list Skin;
  NodeParents : list Z;
  BoneMatrices : list Mat4;
}.

Definition set_NodeTransforms (r : GLBRenderer) (nts : list NodeTransform) : GLBRenderer :=
  mkRenderer (Meshes r) (TextureID r) (TextureWidth r) (TextureHeight r)
    (Animations r) nts (BaseTransforms r) (CurrentAnim r) (AnimStartTime r)
    (AnimLoop r) (Doc r) (Skins r) (NodeParents r) (BoneMatrices r).

Definition set_CurrentAnim (r : GLBRenderer) (a : option Animation) : GLBRenderer :=
  mkRenderer (Meshes r) (TextureID r) (TextureWidth r) (TextureHeight r)
    (Animations r) (NodeTransforms r) (BaseTransforms r) a (AnimStartTime r)
    (AnimLoop r) (Doc r) (Skins r) (NodeParents r) (BoneMatrices r).

Definition set_BoneMatrices (r : GLBRenderer) (bm : list Mat4) : GLBRenderer :=
  mkRenderer (Meshes r) (TextureID r) (TextureWidth r) (TextureHeight r)
    (Animations r) (NodeTransforms r) (BaseTransforms r) (CurrentAnim r)
    (AnimStartTime r) (AnimLoop r) (Doc r) (Skins r) (NodeParents r) bm.

Definition set_TextureSize (r : GLBRenderer) (w h : Z) : GLBRenderer :=
  mkRenderer (Meshes r) (TextureID r) w h
    (Animations r) (NodeTransforms r) (BaseTransforms r) (CurrentAnim r)
    (AnimStartTime r) (AnimLoop r) (Doc r) (Skins r) (NodeParents r)
    (BoneMatrices r).

(** *** Scene graph *)

(** [nodeIndex < 0 || nodeIndex >= len(r.NodeTransforms)] *)
Definition node_out_of_range (r : GLBRenderer) (nodeIndex : Z) : bool :=
  (nodeIndex <? 0) || (len (NodeTransforms r) <=? nodeIndex).

(** [translation.Mul4(rotation).Mul4(scale)] *)
Definition transformMatrix (t : NodeTransform) : Mat4 :=
  let '(tx, ty, tz) := Translation t in
  let '(sx, sy, sz) := Scale t in
  let translation := Translate3D tx ty tz in
  let rotation := QuatMat4 (Rotation t) in
  let scale := Scale3D sx sy sz in
  Mul4 (Mul4 translation rotation) scale.

Definition getNodeTransformMatrix (r : GLBRenderer) (nodeIndex : Z) : Mat4 :=
  if node_out_of_range r nodeIndex then Ident4
  else match NodeTransforms r !! Z.to_nat nodeIndex with
       | Some t => transformMatrix t
       | None => Ident4            (* not reached: the index is in range *)
       end.

(** The recursion of the source follows the parent chain; [fuel] bounds the
    depth of the calls. *)
Fixpoint getGlobalNodeTransform (fuel : nat) (r : GLBRenderer) (nodeIndex : Z)
    : outcome Mat4 :=
  match fuel with
  | O => OutOfFuel
  | S fuel' =>
      if node_out_of_range r nodeIndex then Done Ident4
      else
        let localTransform := getNodeTransformMatrix r nodeIndex in
        parentIdx ← at_index (NodeParents r) nodeIndex;
        if 0 <=? parentIdx then
          parentGlobal ← getGlobalNodeTransform fuel' r parentIdx;
          Done (Mul4 parentGlobal localTransform)
        else Done localTransform
  end.

(** *** Skinning *)

(** The zero value of [mgl32.Mat4]. *)
Definition zeroMat4 : Mat4 :=
  ((f0, f0, f0, f0), (f0, f0, f0, f0), (f0, f0, f0, f0), (f0, f0, f0, f0)).

(** The loop [for i, jointIndex := range skin.Joints] from index [i] on. *)
Fixpoint boneLoop (fuel : nat) (r : GLBRenderer) (skin : Skin) (i : nat)
    (joints : list Z) (bones : list Mat4) : outcome (list Mat4) :=
  match joints with
  | [] => Done bones
  | jointIndex :: rest =>
      globalJointTransform ← getGlobalNodeTransform fuel r jointIndex;
      ibm ← at_index (InverseBindMatrices skin) (Z.of_nat i);
      if decide (i < length bones)%nat then
        boneLoop fuel r skin (S i) rest
          (<[i := Mul4 globalJointTransform ibm]> bones)
      else Panic
  end.

Definition computeBoneMatrices (fuel : nat) (r : GLBRenderer) (skinIndex : Z)
    : outcome GLBRenderer :=
  if (skinIndex <? 0) || (len (Skins r) <=? skinIndex) then Done r
  else
    skin ← at_index (Skins r) skinIndex;
    let bones :=
      if (length (BoneMatrices r) <? length (Joints skin))%nat
      then replicate (length (Joints skin)) zeroMat4
      else BoneMatrices r in
    bones' ← boneLoop fuel r skin 0 (Joints skin) bones;
    Done (set_BoneMatrices r bones').

(** *** Animation *)

Definition is_rotation (channel : AnimationChannel) : bool :=
  String.eqb (Path channel) "rotation".

(** [components := 3; if channel.Path == "rotation" { components = 4 }] *)
Definition components_of (channel : AnimationChannel) : nat :=
  if is_rotation channel then 4%nat else 3%nat.

(** A read [l[i]] that a preceding length check keeps in range. *)
Definition vget (l : list float32) (i : nat) : float32 := default f0 (l !! i).

(** [factor := (t - t0) / (t1 - t0)], clamped to [0, 1]. *)
Definition blend_factor (t t0 t1 : float32) : float32 :=
  let factor := fdiv (fsub t t0) (fsub t1 t0) in
  let factor := if fltb factor f0 then f0 else factor in
  if fltb f1 factor then f1 else factor.

(** [v0 + (v1-v0)*factor] *)
Definition lerp (v0 v1 factor : float32) : float32 :=
  fadd v0 (fmul (fsub v1 v0) factor).

(** The result of the source between the keyframes at [startIdx0] and
    [startIdx1], once both are known to lie inside [values]. *)
Definition blend (channel : AnimationChannel) (startIdx0 startIdx1 : nat)
    (factor : float32) : list float32 :=
  let values := Values channel in
  if is_rotation channel then
    let q0 := mkQuat (vget values (startIdx0 + 3))
                (vget values startIdx0, vget values (startIdx0 + 1),
                 vget values (startIdx0 + 2)) in
    let q1 := mkQuat (vget values (startIdx1 + 3))
                (vget values startIdx1, vget values (startIdx1 + 1),
                 vget values (startIdx1 + 2)) in
    let qr := QuatSlerp q0 q1 factor in
    let '(x, y, z) := V qr in
    [x; y; z; W qr]
  else
    (λ i, lerp (vget values (startIdx0 + i)) (vget values (startIdx1 + i)) factor)
      <$> seq 0 (components_of channel).

(** A returned [nil] is the empty list. *)
Definition interpolateKeyframes (channel : AnimationChannel) (t : float32)
    : outcome (list float32) :=
  let timestamps := Timestamps channel in
  let values := Values channel in
  if (length timestamps =? 0)%nat then Done []
  else
    let components := components_of channel in
    let count := length timestamps in
    let idx := sort_Search count (λ i, fltb t (vget timestamps i)) in
    if (idx =? 0)%nat then
      if (components <=? length values)%nat then slice values 0 components
      else Done []
    else if (idx =? count)%nat then
      let startIdx := ((count - 1) * components)%nat in
      if (startIdx + components <=? length values)%nat
      then slice values startIdx (startIdx + components)
      else Done []
    else
      let keyIdx := (idx - 1)%nat in
      let t0 := vget timestamps keyIdx in
      let t1 := vget timestamps (keyIdx + 1) in
      let factor := blend_factor t t0 t1 in
      let startIdx0 := (keyIdx * components)%nat in
      let startIdx1 := ((keyIdx + 1) * components)%nat in
      if (length values <? startIdx1 + components)%nat
      then slice values startIdx0 (startIdx0 + components)
      else Done (blend channel startIdx0 startIdx1 factor).

Definition set_Translation (t : NodeTransform) (v : Vec3) : NodeTransform :=
  mkNodeTransform v (Rotation t) (Scale t).
Definition set_Rotation (t : NodeTransform) (q : Quat) : NodeTransform :=
  mkNodeTransform (Translation t) q (Scale t).
Definition set_Scale (t : NodeTransform) (v : Vec3) : NodeTransform :=
  mkNodeTransform (Translation t) (Rotation t) v.

(** The [switch channel.Path] of UpdateAnimation, on the transform of the
    target node. *)
Definition writeProperty (path : string) (value : list float32)
    (t : NodeTransform) : NodeTransform :=
  if String.eqb path "translation" then
    if (3 <=? length value)%nat
    then set_Translation t (vget value 0, vget value 1, vget value 2)
    else t
  else if String.eqb path "rotation" then
    if (4 <=? length value)%nat
    then set_Rotation t (mkQuat (vget value 3)
                           (vget value 0, vget value 1, vget value 2))
    else t
  else if String.eqb path "scale" then
    if (3 <=? length value)%nat
    then set_Scale t (vget value 0, vget value 1, vget value 2)
    else t
  else t.

(** One turn of the loop over [r.CurrentAnim.Channels]. *)
Definition applyChannel (elapsed : float32) (nts : list NodeTransform)
    (channel : AnimationChannel) : outcome (list NodeTransform) :=
  if (NodeIndex channel <? 0) || (len nts <=? NodeIndex channel) then Done nts
  else
    value ← interpolateKeyframes channel elapsed;
    Done (alter (writeProperty (Path channel) value)
            (Z.to_nat (NodeIndex channel)) nts).

Fixpoint applyChannels (elapsed : float32) (channels : list AnimationChannel)
    (nts : list NodeTransform) : outcome (list NodeTransform) :=
  match channels with
  | [] => Done nts
  | channel :: rest =>
      nts' ← applyChannel elapsed nts channel;
      applyChannels elapsed rest nts'
  end.

(** [for i := range r.NodeTransforms { r.NodeTransforms[i] =
    r.BaseTransforms[i] }]: the read panics when [BaseTransforms] is the
    shorter slice. *)
Definition resetToBase (r : GLBRenderer) : outcome (list NodeTransform) :=
  if decide (length (NodeTransforms r) ≤ length (BaseTransforms r))%nat
  then Done (take (length (NodeTransforms r)) (BaseTransforms r))
  else Panic.

Inductive error :=
  | ErrOpen
  | ErrLoadPrimitive
  | ErrNoMeshes
  (* "animation '%s' not found, available: %v" *)
  | ErrAnimationNotFound (name : string) (available : list string).

(** [for k := range r.Animations]: Go visits the keys in an unspecified
    order; the model takes the order of [map_to_list]. *)
Definition availableAnimations (r : GLBRenderer) : list string :=
  (map_to_list (Animations r)).*1.

(** [now] is the value of [time.Now()] during the call. *)
Definition PlayAnimation (r : GLBRenderer) (name : string) (loop : bool)
    (now : Z) : GLBRenderer * option error :=
  match Animations r !! name with
  | None => (r, Some (ErrAnimationNotFound name (availableAnimations r)))
  | Some anim =>
      (mkRenderer (Meshes r) (TextureID r) (TextureWidth r) (TextureHeight r)
         (Animations r) (NodeTransforms r) (BaseTransforms r) (Some anim)
         now loop (Doc r) (Skins r) (NodeParents r) (BoneMatrices r),
       None)
  end.

Definition StopAnimation (r : GLBRenderer) : outcome GLBRenderer :=
  let r := set_CurrentAnim r None in
  nts ← resetToBase r;
  Done (set_NodeTransforms r nts).

(** The elapsed time UpdateAnimation works with, or [None] when the clip is
    over: [if r.AnimLoop && Duration > 0 { elapsed = mod } else if elapsed
    > Duration { stop }]. *)
Definition effectiveElapsed (loop : bool) (duration elapsed : float32)
    : option float32 :=
  if loop && fltb f0 duration then Some (fmod elapsed duration)
  else if fltb duration elapsed then None
  else Some elapsed.

(** [now] is the value of [time.Now()] inside [time.Since]. *)
Definition UpdateAnimation (r : GLBRenderer) (now : Z) : outcome GLBRenderer :=
  match CurrentAnim r with
  | None => Done r
  | Some anim =>
      let elapsed := seconds32 (now - AnimStartTime r) in
      match effectiveElapsed (AnimLoop r) (Duration anim) elapsed with
      | None => Done (set_CurrentAnim r None)
      | Some elapsed =>
          nts ← resetToBase r;
          nts' ← applyChannels elapsed (Channels anim) nts;
          Done (set_NodeTransforms r nts')
      end
  end.

(** *** Texture *)

(** The OpenGL calls the model records. *)
Inductive GLCall :=
  | BindTexture (texture : Z)
  | TexImage2D (width height : Z)
  (* xoffset = yoffset = 0, format RGBA, type UNSIGNED_BYTE; [pixels] is
     the memory behind [&buffer[0]] *)
  | TexSubImage2D (width height : Z) (pixels : list Byte.byte)
  | UniformBoneMatrix (i : nat) (m : Mat4)
  | DrawElements (count : Z)
  | DrawArrays (count : Z).

Definition UpdateTexture (r : GLBRenderer) (buffer : list Byte.byte)
    (width height stride : Z) : GLBRenderer * list GLCall :=
  if (length buffer =? 0)%nat then (r, [])
  else
    let resize :=
      negb (TextureWidth r =? width) || negb (TextureHeight r =? height) in
    (if resize then set_TextureSize r width height else r,
     [BindTexture (TextureID r)]
       ++ (if resize then [TexImage2D width height] else [])
       ++ [TexSubImage2D width height buffer]).

(** *** Loading *)

Fixpoint foldM {A B} (f : A → B → outcome A) (a : A) (l : list B) : outcome A :=
  match l with
  | [] => Done a
  | b :: rest => a' ← f a b; foldM f a' rest
  end.

Fixpoint mapM {A B} (f : A → outcome B) (l : list A) : outcome (list B) :=
  match l with
  | [] => Done []
  | a :: rest => b ← f a; bs ← mapM f rest; Done (b :: bs)
  end.

(** [l[i] = x] in Go. *)
Definition set_index {A} (l : list A) (i : Z) (x : A) : outcome (list A) :=
  if (i <? 0) || (len l <=? i) then Panic
  else Done (<[Z.to_nat i := x]> l).

(** [int32(n)] *)
Definition int32 (n : Z) : Z := (n + 2 ^ 31) mod 2 ^ 32 - 2 ^ 31.

Definition byteZ (data : list Byte.byte) (i : nat) : Z :=
  match data !! i with
  | Some b => Z.of_N (Byte.to_N b)
  | None => 0
  end.

Definition elemCount (t : AccessorType) : Z :=
  match t with
  | AccessorScalar => 1
  | AccessorVec2 => 2
  | AccessorVec3 => 3
  | AccessorVec4 => 4
  | AccessorMat4 => 16
  | _ => 1
  end.

(** [Done None] is a returned error. *)
Definition readAccessorFloats (doc : Document) (accessorIndex : Z)
    : outcome (option (list float32)) :=
  if (accessorIndex <? 0) || (len (Accessors doc) <=? accessorIndex)
  then Done None
  else
    accessor ← at_index (Accessors doc) accessorIndex;
    bufferView ← match aBufferView accessor with
                  | Some bv => at_index (BufferViews doc) bv
                  | None => Panic
                  end;
    buffer ← at_index (Buffers doc) (bvBuffer bufferView);
    let start := bvByteOffset bufferView + aByteOffset accessor in
    if (start <? 0) || (len (Data buffer) <? start) then Panic
    else
      let data := drop (Z.to_nat start) (Data buffer) in
      let totalFloats := aCount accessor * elemCount (aType accessor) in
      if totalFloats <? 0 then Panic
      else
        Done (Some ((λ i,
          let offset := (i * 4)%nat in
          if (offset + 4 <=? length data)%nat then
            float32frombits
              (Z.lor (Z.lor (Z.lor (byteZ data offset)
                                   (Z.shiftl (byteZ data (offset + 1)) 8))
                            (Z.shiftl (byteZ data (offset + 2)) 16))
                     (Z.shiftl (byteZ data (offset + 3)) 24))
          else f0) <$> seq 0 (Z.to_nat totalFloats))).

(** The meshes keep what loadPrimitive stores in the [Mesh]; the
    interleaved vertex data goes to the driver and is left out. *)
Definition checkAttribute (doc : Document) (prim : Primitive) (key : string)
    : outcome unit :=
  match Attributes prim !! key with
  | Some idx => _ ← at_index (Accessors doc) idx; Done ()
  | None => Done ()
  end.

Definition loadPrimitive (doc : Document) (prim : Primitive)
    : outcome (Mesh * option error) :=
  let m := mkMesh 0 false 0 0 0 in
  match Attributes prim !! "POSITION" with
  | None => Done (m, Some ErrLoadPrimitive)
  | Some posAccessorIdx =>
      _ ← at_index (Accessors doc) posAccessorIdx;
      match ReadPosition doc posAccessorIdx with
      | None => Done (m, Some ErrLoadPrimitive)
      | Some positions =>
          _ ← checkAttribute doc prim "NORMAL";
          _ ← checkAttribute doc prim "TEXCOORD_0";
          _ ← checkAttribute doc prim "JOINTS_0";
          _ ← checkAttribute doc prim "WEIGHTS_0";
          m ← match Indices prim with
               | Some idx =>
                   _ ← at_index (Accessors doc) idx;
                   match ReadIndices doc idx with
                   | Some indices =>
                       if (0 <? length indices)%nat
                       then Done (mkMesh (int32 (len indices)) true 0 0 0)
                       else Done m
                   | None => Done m
                   end
               | None => Done m
               end;
          if HasIndices m then Done (m, None)
          else Done (mkMesh (IndexCount m) false (int32 (len positions)) 0 0,
                     None)
      end
  end.

(** [for _, childIdx := range node.Children { r.NodeParents[childIdx] =
    parentIdx }] *)
Definition setParents (parentIdx : Z) (parents : list Z) (children : list Z)
    : outcome (list Z) :=
  foldM (λ parents childIdx, set_index parents childIdx parentIdx)
    parents children.

(** [for parentIdx, node := range doc.Nodes], from [parentIdx] on. *)
Fixpoint buildParentsFrom (parentIdx : nat) (nodes : list GltfNode)
    (parents : list Z) : outcome (list Z) :=
  match nodes with
  | [] => Done parents
  | node :: rest =>
      parents' ← setParents (Z.of_nat parentIdx) parents (Children node);
      buildParentsFrom (S parentIdx) rest parents'
  end.

Definition buildNodeParents (doc : Document) : outcome (list Z) :=
  buildParentsFrom 0 (Nodes doc) (replicate (length (Nodes doc)) (-1)).

Definition initialTransform (node : GltfNode) : NodeTransform :=
  let '(tx, ty, tz) := nTranslation node in
  let '(rx, ry, rz, rw) := nRotation node in
  let '(sx, sy, sz) := nScale node in
  let translation :=
    if negb (f64_eqb tx d0 && f64_eqb ty d0 && f64_eqb tz d0)
    then (float32_of_64 tx, float32_of_64 ty, float32_of_64 tz)
    else (f0, f0, f0) in
  let rotation :=
    if negb (f64_eqb rx d0 && f64_eqb ry d0 && f64_eqb rz d0 && f64_eqb rw d1)
    then mkQuat (float32_of_64 rw)
           (float32_of_64 rx, float32_of_64 ry, float32_of_64 rz)
    else QuatIdent in
  let scale :=
    if negb (f64_eqb sx d1 && f64_eqb sy d1 && f64_eqb sz d1)
       && negb (f64_eqb sx d0 && f64_eqb sy d0 && f64_eqb sz d0)
    then (float32_of_64 sx, float32_of_64 sy, float32_of_64 sz)
    else (f1, f1, f1) in
  mkNodeTransform translation rotation scale.

(** [matrices[i*16+j]] for [j] from 0 to 15. *)
Definition mat4At (matrices : list float32) (i : nat) : Mat4 :=
  let g j := vget matrices (i * 16 + j) in
  ((g 0, g 1, g 2, g 3), (g 4, g 5, g 6, g 7),
   (g 8, g 9, g 10, g 11), (g 12, g 13, g 14, g 15))%nat.

(** The loop stops at the first [i] with [i*16+16 > len(matrices)]; the
    test is monotone in [i], so the matrices from there on keep the zero
    value of [make]. *)
Definition inverseBindFrom (matrices : list float32) (joints : nat) : list Mat4 :=
  (λ i, if (i * 16 + 16 <=? length matrices)%nat then mat4At matrices i
        else zeroMat4) <$> seq 0 joints.

Definition loadSkin (doc : Document) (skin : GltfSkin) : outcome Skin :=
  let joints := sJoints skin in
  match sInverseBindMatrices skin with
  | Some acc =>
      res ← readAccessorFloats doc acc;
      match res with
      | Some matrices =>
          Done (mkSkin joints (inverseBindFrom matrices (length joints)))
      | None => Done (mkSkin joints [])
      end
  | None => Done (mkSkin joints (replicate (length joints) Ident4))
  end.

Definition maxJoints (skins : list Skin) : nat :=
  foldl (λ m skin, if (m <? length (Joints skin))%nat
                   then length (Joints skin) else m) 0%nat skins.

(** [for _, prim := range mesh.Primitives] for the mesh of one node. *)
Fixpoint loadPrimitives (doc : Document) (nodeIdx : nat) (node : GltfNode)
    (prims : list Primitive) (meshes : list Mesh)
    : outcome (list Mesh * option error) :=
  match prims with
  | [] => Done (meshes, None)
  | prim :: rest =>
      res ← loadPrimitive doc prim;
      match res with
      | (_, Some e) => Done (meshes, Some e)
      | (m, None) =>
          loadPrimitives doc nodeIdx node rest
            (meshes ++ [mkMesh (IndexCount m) (HasIndices m) (VertexCount m)
                          (Z.of_nat nodeIdx) (default (-1) (nSkin node))])
      end
  end.

Definition loadMeshesOfNode (doc : Document) (nodeIdx : nat) (node : GltfNode)
    (meshes : list Mesh) : outcome (list Mesh * option error) :=
  match nMesh node with
  | None => Done (meshes, None)
  | Some meshIdx =>
      mesh ← at_index (dMeshes doc) meshIdx;
      loadPrimitives doc nodeIdx node (Primitives mesh) meshes
  end.

Fixpoint loadMeshesFrom (doc : Document) (nodeIdx : nat) (nodes : list GltfNode)
    (meshes : list Mesh) : outcome (list Mesh * option error) :=
  match nodes with
  | [] => Done (meshes, None)
  | node :: rest =>
      res ← loadMeshesOfNode doc nodeIdx node meshes;
      match res with
      | (meshes', Some e) => Done (meshes', Some e)
      | (meshes', None) => loadMeshesFrom doc (S nodeIdx) rest meshes'
      end
  end.

Definition loadChannel (doc : Document) (anim : GltfAnimation) (a : Animation)
    (channel : GltfChannel) : outcome Animation :=
  match cTargetNode channel with
  | None => Done a
  | Some node =>
      sampler ← at_index (gaSamplers anim) (cSampler channel);
      ts ← readAccessorFloats doc (sInput sampler);
      match ts with
      | None => Done a
      | Some timestamps =>
          vs ← readAccessorFloats doc (sOutput sampler);
          match vs with
          | None => Done a
          | Some values =>
              let duration :=
                match last timestamps with
                | Some final =>
                    if fltb (Duration a) final then final else Duration a
                | None => Duration a
                end in
              Done (mkAnimation (Name a)
                      (Channels a ++
                         [mkChannel node (runeString (cTargetPath channel))
                            timestamps values])
                      duration)
          end
      end
  end.

Definition loadAnimation (doc : Document) (anims : gmap string Animation)
    (anim : GltfAnimation) : outcome (gmap string Animation) :=
  let name :=
    if String.eqb (gaName anim) ""
    then "animation_" +:+ pretty (size anims)
    else gaName anim in
  a ← foldM (loadChannel doc anim) (mkAnimation name [] f0) (gaChannels anim);
  if (0 <? length (Channels a))%nat then Done (<[name := a]> anims)
  else Done anims.

(** [opened] is the result of [gltf.Open(filename)]. The renderer is
    updated in place, so a returned error comes with the state reached. *)
Definition LoadGLB (r : GLBRenderer) (opened : option Document)
    : outcome (GLBRenderer * option error) :=
  match opened with
  | None => Done (r, Some ErrOpen)
  | Some doc =>
      parents ← buildNodeParents doc;
      let transforms := initialTransform <$> Nodes doc in
      skins ← mapM (loadSkin doc) (dSkins doc);
      let skins := Skins r ++ skins in
      let bones :=
        if (0 <? length skins)%nat then replicate (maxJoints skins) Ident4
        else BoneMatrices r in
      res ← loadMeshesFrom doc 0 (Nodes doc) (Meshes r);
      let '(meshes, err) := res in
      let r1 := mkRenderer meshes (TextureID r) (TextureWidth r)
                  (TextureHeight r) (Animations r) transforms transforms
                  (CurrentAnim r) (AnimStartTime r) (AnimLoop r) (Some doc)
                  skins parents bones in
      match err with
      | Some e => Done (r1, Some e)
      | None =>
          if (length meshes =? 0)%nat then Done (r1, Some ErrNoMeshes)
          else
            anims ← foldM (loadAnimation doc) (Animations r)
                      (dAnimations doc);
            Done (mkRenderer meshes (TextureID r) (TextureWidth r)
                    (TextureHeight r) anims transforms transforms
                    (CurrentAnim r) (AnimStartTime r) (AnimLoop r) (Some doc)
                    skins parents bones, None)
      end
  end.

(** *** Drawing *)

(** The bone matrices Render uploads for one mesh, and its draw call. *)
Definition renderMesh (fuel : nat) (r : GLBRenderer) (mesh : Mesh)
    : outcome (GLBRenderer * list GLCall) :=
  let draw := if HasIndices mesh then DrawElements (IndexCount mesh)
              else DrawArrays (VertexCount mesh) in
  if (0 <=? SkinIndex mesh) && (SkinIndex mesh <? len (Skins r)) then
    r' ← computeBoneMatrices fuel r (SkinIndex mesh);
    skin ← at_index (Skins r') (SkinIndex mesh);
    let numJoints := if (128 <? length (Joints skin))%nat then 128%nat
                     else length (Joints skin) in
    uploads ← mapM (λ i, m ← at_index (BoneMatrices r') (Z.of_nat i);
                         Done (UniformBoneMatrix i m)) (seq 0 numJoints);
    Done (r', uploads ++ [draw])
  else
    Done (r, ((λ i, UniformBoneMatrix i Ident4) <$> seq 0 128) ++ [draw]).

(** Render: UpdateAnimation, then every mesh in turn. The calls that set
    the program, the camera, the texture unit and the model rotation are
    left out. *)
Definition Render (fuel : nat) (r : GLBRenderer) (now : Z)
    : outcome (GLBRenderer * list GLCall) :=
  r ← UpdateAnimation r now;
  foldM (λ '(r, calls) mesh,
           res ← renderMesh fuel r mesh;
           Done (res.1, calls ++ res.2))
    (r, []) (Meshes r).

End Renderer.

(** ** An instance over exact integers

    The external packages instantiated with integer arithmetic, so that the
    model runs on concrete scenes. Durations are whole seconds given in
    nanoseconds; the spherical blend is the linear one. *)

Module IntModel.

#[export] Instance float : Float32 := {|
  float32 := Z;
  float64 := Z;
  f0 := 0;
  f1 := 1;
  fadd := Z.add;
  fsub := Z.sub;
  fmul := Z.mul;
  fdiv := Z.div;
  fltb := Z.ltb;
  fmod := Z.rem;
  seconds32 := λ ns, ns / 1000000000;
  d0 := 0;
  d1 := 1;
  f64_eqb := Z.eqb;
  float32_of_64 := λ x, x;
  float32frombits := λ bits, bits;
|}.

Definition scale4 (k : Z) (c : Vec4) : Vec4 :=
  let '(a, b, c, d) := c in (k * a, k * b, k * c, k * d).

Definition add4 (u v : Vec4) : Vec4 :=
  let '(a, b, c, d) := u in
  let '(a', b', c', d') := v in (a + a', b + b', c + c', d + d').

(** The product of [m] with a column. *)
Definition mulCol (m : Mat4) (v : Vec4) : Vec4 :=
  let '(c0, c1, c2, c3) := m in
  let '(x, y, z, w) := v in
  add4 (add4 (add4 (scale4 x c0) (scale4 y c1)) (scale4 z c2)) (scale4 w c3).

Definition mul4 (m1 m2 : Mat4) : Mat4 :=
  let '(c0, c1, c2, c3) := m2 in
  (mulCol m1 c0, mulCol m1 c1, mulCol m1 c2, mulCol m1 c3).

Definition quatMat4 (q : Quat) : Mat4 :=
  let w := W q in
  let '(x, y, z) := V q in
  ((1 - 2*y*y - 2*z*z, 2*x*y + 2*w*z, 2*x*z - 2*w*y, 0),
   (2*x*y - 2*w*z, 1 - 2*x*x - 2*z*z, 2*y*z + 2*w*x, 0),
   (2*x*z + 2*w*y, 2*y*z - 2*w*x, 1 - 2*x*x - 2*y*y, 0),
   (0, 0, 0, 1)).

Definition quatBlend (q0 q1 : Quat) (amount : Z) : Quat :=
  let '(x0, y0, z0) := V q0 in
  let '(x1, y1, z1) := V q1 in
  mkQuat (W q0 + (W q1 - W q0) * amount)
    (x0 + (x1 - x0) * amount, y0 + (y1 - y0) * amount,
     z0 + (z1 - z0) * amount).

#[export] Instance mgl : Mgl32 := {|
  Ident4 := ((1, 0, 0, 0), (0, 1, 0, 0), (0, 0, 1, 0), (0, 0, 0, 1));
  Mul4 := mul4;
  Translate3D := λ x y z, ((1, 0, 0, 0), (0, 1, 0, 0), (0, 0, 1, 0), (x, y, z, 1));
  Scale3D := λ x y z, ((x, 0, 0, 0), (0, y, 0, 0), (0, 0, z, 0), (0, 0, 0, 1));
  QuatMat4 := quatMat4;
  QuatIdent := mkQuat 1 (0, 0, 0);
  QuatSlerp := quatBlend;
|}.

(** Every position accessor holds one triangle; there are no index
    accessors. *)
#[export] Instance modeler : Modeler := {|
  ReadPosition := λ _ _, Some [(0, 0, 0); (1, 0, 0); (0, 1, 0)];
  ReadIndices := λ _ _, None;
|}.

End IntModel.

(** ** A slerp that normalises

    [mgl32.QuatSlerp] normalises its two arguments before it blends them
    ([q1, q2 = q1.Normalize(), q2.Normalize()]), so at the amount 0 it
    returns the first quaternion scaled to the length 1. [mglUnit] does so
    over the integers: a length is an integer square root, and the blend of
    the two normalised quaternions is the linear one of [IntModel]. *)
Module UnitModel.
Import IntModel.





End UnitModel.

(** ** The vertex buffer of loadPrimitive

    The loop of loadPrimitive that interleaves the attributes read by the
    modeler: 16 floats per vertex. A missing attribute is a nil slice, the
    empty list. [two] is the float32 constant 2 and [float32_of_uint16] the
    conversion [float32(joints[i][k])]. *)

Section VertexData.
Context {F32 : Float32}.
Variable two : float32.
Variable float32_of_uint16 : Z → float32.

Definition vertexFloats (i : nat) (pos : Vec3) (normals : list Vec3)
    (texCoords : list (float32 * float32)) (joints : list (Z * Z * Z * Z))
    (weights : list Vec4) : list float32 :=
  let '(px, py, pz) := pos in
  [px; py; pz]
  ++ match normals !! i with
     | Some (nx, ny, nz) => [nx; ny; nz]
     | None => [f0; f1; f0]
     end
  ++ match texCoords !! i with
     | Some (u, v) => [u; v]
     | None => [fdiv (fadd px f1) two; fdiv (fadd py f1) two]
     end
  ++ match joints !! i with
     | Some (j0, j1, j2, j3) =>
         [float32_of_uint16 j0; float32_of_uint16 j1;
          float32_of_uint16 j2; float32_of_uint16 j3]
     | None => [f0; f0; f0; f0]
     end
  ++ match weights !! i with
     | Some (w0, w1, w2, w3) => [w0; w1; w2; w3]
     | None => [f0; f0; f0; f0]
     end.

(** [for i, pos := range positions], from index [i] on. *)
Fixpoint vertexDataFrom (i : nat) (positions normals : list Vec3)
    (texCoords : list (float32 * float32)) (joints : list (Z * Z * Z * Z))
    (weights : list Vec4) : list float32 :=
  match positions with
  | [] => []
  | pos :: rest =>
      vertexFloats i pos normals texCoords joints weights
      ++ vertexDataFrom (S i) rest normals texCoords joints weights
  end.

Definition vertexData (positions normals : list Vec3)
    (texCoords : list (float32 * float32)) (joints : list (Z * Z * Z * Z))
    (weights : list Vec4) : list float32 :=
  vertexDataFrom 0 positions normals texCoords joints weights.

End VertexData.

(** The calls [gl.VertexAttribPointerWithOffset(location, size, FLOAT,
    false, stride, offset)] of loadPrimitive: location, number of floats
    and byte offset; [stride := int32(16 * 4)]. *)
Definition vertexStride : Z := 16 * 4.

Definition attributePointers : list (Z * Z * Z) :=
  [(0, 3, 0); (1, 3, 3 * 4); (2, 2, 6 * 4); (3, 4, 8 * 4); (4, 4, 12 * 4)].

(** ** The WebSocket server (server.go)

    The bodies of the functions as they run on one goroutine; the mutex and
    the goroutines are left out. A connection is a number; the result of
    [client.WriteMessage] is given by the caller. *)

(** [byte(v)] of an unsigned value. *)
Definition byte_of_Z (v : Z) : Byte.byte :=
  default Byte.x00 (Byte.of_N (Z.to_N (v mod 256))).

Definition Z_of_byte (b : Byte.byte) : Z := Z.of_N (Byte.to_N b).

(** [uint32(n)] *)
Definition uint32 (n : Z) : Z := n mod 2 ^ 32.

(** [binary.LittleEndian.PutUint32(b, v)] on a slice of four bytes:
    [b[0] = byte(v); b[1] = byte(v >> 8); b[2] = byte(v >> 16);
    b[3] = byte(v >> 24)]. *)
Definition PutUint32 (v : Z) : list Byte.byte :=
  [byte_of_Z v; byte_of_Z (Z.shiftr v 8); byte_of_Z (Z.shiftr v 16);
   byte_of_Z (Z.shiftr v 24)].

(** [binary.LittleEndian.Uint32(b)]: [uint32(b[0]) | uint32(b[1])<<8 |
    uint32(b[2])<<16 | uint32(b[3])<<24]; it panics on fewer than four
    bytes. *)
Definition Uint32 (b : list Byte.byte) : outcome Z :=
  match b with
  | b0 :: b1 :: b2 :: b3 :: _ =>
      Done (Z.lor (Z.lor (Z.lor (Z_of_byte b0) (Z.shiftl (Z_of_byte b1) 8))
                         (Z.shiftl (Z_of_byte b2) 16))
                  (Z.shiftl (Z_of_byte b3) 24))
  | _ => Panic
  end.

Section Server.
Context {F32 : Float32}.

Record WebSocketServer := mkServer {
  clients : gset nat;
  hasKeyboardHandler : bool;       (* s.keyboardHandler != nil *)
  hasMouseHandler : bool;          (* s.mouseHandler != nil *)
}.

(** The message BroadcastDesktopBuffer builds: [header] then the buffer. *)
Definition desktopMessage (buffer : list Byte.byte) (width height stride : Z)
    : list Byte.byte :=
  let header := PutUint32 (uint32 width) ++ PutUint32 (uint32 height)
                ++ PutUint32 (uint32 stride) in
  header ++ buffer.

(** The loop over the connections: a failed write closes the connection
    and deletes it from the server. *)
Definition sendTo (writeFails : nat → bool) (message : list Byte.byte)
    (state : gset nat * list (nat * list Byte.byte)) (client : nat)
    : gset nat * list (nat * list Byte.byte) :=
  let '(remaining, sent) := state in
  (if writeFails client then remaining ∖ {[client]} else remaining,
   sent ++ [(client, message)]).

(** The result is the server and the writes made, in the order of the
    loop; Go visits the connections in an unspecified order, the model in
    the order of [elements]. *)
Definition BroadcastDesktopBuffer (s : WebSocketServer)
    (writeFails : nat → bool) (buffer : list Byte.byte)
    (width height stride : Z)
    : WebSocketServer * list (nat * list Byte.byte) :=
  if (length buffer =? 0)%nat then (s, [])
  else
    let message := desktopMessage buffer width height stride in
    let '(remaining, sent) :=
      foldl (sendTo writeFails message) (clients s, [])
        (elements (clients s)) in
    (mkServer remaining (hasKeyboardHandler s) (hasMouseHandler s), sent).

Definition ClientCount (s : WebSocketServer) : Z :=
  Z.of_nat (size (clients s)).

(** The handler call a received message leads to. *)
Inductive InputCall :=
  | KeyboardCall (keycode : Z) (pressed : bool)
  | MouseCall (eventType : Z) (x y : float32) (button : Z) (pressed : bool)
      (scrollDelta : float32).

(** [message[i] != 0] *)
Definition byteSet (message : list Byte.byte) (i : nat) : bool :=
  negb (byteZ message i =? 0).

(** The body of the read loop of HandleWebSocket for one message;
    [binary] is [messageType == websocket.BinaryMessage]. *)
Definition handleMessage (s : WebSocketServer) (binary : bool)
    (message : list Byte.byte) : outcome (option InputCall) :=
  if binary && (6 <=? length message)%nat then
    let msgType := byteZ message 0 in
    if (msgType =? 1) && hasKeyboardHandler s then
      keycode ← (bytes ← slice message 1 5; Uint32 bytes);
      Done (Some (KeyboardCall keycode (byteSet message 5)))
    else if (msgType =? 2) && hasMouseHandler s
            && (19 <=? length message)%nat then
      x ← (bytes ← slice message 2 6; Uint32 bytes);
      y ← (bytes ← slice message 6 10; Uint32 bytes);
      button ← (bytes ← slice message 10 14; Uint32 bytes);
      scrollDelta ← (bytes ← slice message 15 19; Uint32 bytes);
      Done (Some (MouseCall (byteZ message 1) (float32frombits x)
                    (float32frombits y) button (byteSet message 14)
                    (float32frombits scrollDelta)))
    else Done None
  else Done None.

End Server.

(** ** Input translation (main.go) *)

(** The SDL scancodes sdlScancodeToLinux names; every other scancode is
    [SCANCODE_OTHER]. *)
Inductive Scancode :=
  | SCANCODE_ESCAPE | SCANCODE_1 | SCANCODE_2 | SCANCODE_3 | SCANCODE_4
  | SCANCODE_5 | SCANCODE_6 | SCANCODE_7 | SCANCODE_8 | SCANCODE_9
  | SCANCODE_0 | SCANCODE_MINUS | SCANCODE_EQUALS | SCANCODE_BACKSPACE
  | SCANCODE_TAB | SCANCODE_Q | SCANCODE_W | SCANCODE_E | SCANCODE_R
  | SCANCODE_T | SCANCODE_Y | SCANCODE_U | SCANCODE_I | SCANCODE_O
  | SCANCODE_P | SCANCODE_LEFTBRACKET | SCANCODE_RIGHTBRACKET
  | SCANCODE_RETURN | SCANCODE_LCTRL | SCANCODE_A | SCANCODE_S | SCANCODE_D
  | SCANCODE_F | SCANCODE_G | SCANCODE_H | SCANCODE_J | SCANCODE_K
  | SCANCODE_L | SCANCODE_SEMICOLON | SCANCODE_APOSTROPHE | SCANCODE_GRAVE
  | SCANCODE_LSHIFT | SCANCODE_BACKSLASH | SCANCODE_Z | SCANCODE_X
  | SCANCODE_C | SCANCODE_V | SCANCODE_B | SCANCODE_N | SCANCODE_M
  | SCANCODE_COMMA | SCANCODE_PERIOD | SCANCODE_SLASH | SCANCODE_RSHIFT
  | SCANCODE_LALT | SCANCODE_SPACE | SCANCODE_CAPSLOCK | SCANCODE_F1
  | SCANCODE_F2 | SCANCODE_F3 | SCANCODE_F4 | SCANCODE_F5 | SCANCODE_F6
  | SCANCODE_F7 | SCANCODE_F8 | SCANCODE_F9 | SCANCODE_F10 | SCANCODE_F11
  | SCANCODE_F12 | SCANCODE_RCTRL | SCANCODE_RALT | SCANCODE_HOME
  | SCANCODE_UP | SCANCODE_PAGEUP | SCANCODE_LEFT | SCANCODE_RIGHT
  | SCANCODE_END | SCANCODE_DOWN | SCANCODE_PAGEDOWN | SCANCODE_INSERT
  | SCANCODE_DELETE | SCANCODE_OTHER.

Definition sdlScancodeToLinux (scancode : Scancode) : Z :=
  match scancode with
  | SCANCODE_ESCAPE => 1 | SCANCODE_1 => 2 | SCANCODE_2 => 3
  | SCANCODE_3 => 4 | SCANCODE_4 => 5 | SCANCODE_5 => 6 | SCANCODE_6 => 7
  | SCANCODE_7 => 8 | SCANCODE_8 => 9 | SCANCODE_9 => 10 | SCANCODE_0 => 11
  | SCANCODE_MINUS => 12 | SCANCODE_EQUALS => 13 | SCANCODE_BACKSPACE => 14
  | SCANCODE_TAB => 15 | SCANCODE_Q => 16 | SCANCODE_W => 17
  | SCANCODE_E => 18 | SCANCODE_R => 19 | SCANCODE_T => 20
  | SCANCODE_Y => 21 | SCANCODE_U => 22 | SCANCODE_I => 23
  | SCANCODE_O => 24 | SCANCODE_P => 25 | SCANCODE_LEFTBRACKET => 26
  | SCANCODE_RIGHTBRACKET => 27 | SCANCODE_RETURN => 28
  | SCANCODE_LCTRL => 29 | SCANCODE_A => 30 | SCANCODE_S => 31
  | SCANCODE_D => 32 | SCANCODE_F => 33 | SCANCODE_G => 34
  | SCANCODE_H => 35 | SCANCODE_J => 36 | SCANCODE_K => 37
  | SCANCODE_L => 38 | SCANCODE_SEMICOLON => 39 | SCANCODE_APOSTROPHE => 40
  | SCANCODE_GRAVE => 41 | SCANCODE_LSHIFT => 42 | SCANCODE_BACKSLASH => 43
  | SCANCODE_Z => 44 | SCANCODE_X => 45 | SCANCODE_C => 46
  | SCANCODE_V => 47 | SCANCODE_B => 48 | SCANCODE_N => 49
  | SCANCODE_M => 50 | SCANCODE_COMMA => 51 | SCANCODE_PERIOD => 52
  | SCANCODE_SLASH => 53 | SCANCODE_RSHIFT => 54 | SCANCODE_LALT => 56
  | SCANCODE_SPACE => 57 | SCANCODE_CAPSLOCK => 58 | SCANCODE_F1 => 59
  | SCANCODE_F2 => 60 | SCANCODE_F3 => 61 | SCANCODE_F4 => 62
  | SCANCODE_F5 => 63 | SCANCODE_F6 => 64 | SCANCODE_F7 => 65
  | SCANCODE_F8 => 66 | SCANCODE_F9 => 67 | SCANCODE_F10 => 68
  | SCANCODE_F11 => 87 | SCANCODE_F12 => 88 | SCANCODE_RCTRL => 97
  | SCANCODE_RALT => 100 | SCANCODE_HOME => 102 | SCANCODE_UP => 103
  | SCANCODE_PAGEUP => 104 | SCANCODE_LEFT => 105 | SCANCODE_RIGHT => 106
  | SCANCODE_END => 107 | SCANCODE_DOWN => 108 | SCANCODE_PAGEDOWN => 109
  | SCANCODE_INSERT => 110 | SCANCODE_DELETE => 111
  | SCANCODE_OTHER => 0
  end.

(** The keyboard branch of the event loop of main: the key sent to the
    Wayland clients, if any. [down] is [e.Type == sdl.KEYDOWN]. *)
Definition keyboardEvent (scancode : Scancode) (down : bool)
    : option (Z * bool) :=
  let keycode := sdlScancodeToLinux scancode in
  if negb (keycode =? 0) then Some (keycode, down) else None.

(** ** Notions used to state the properties *)

Section Notions.
Context {F32 : Float32} {M32 : Mgl32} {MOD : Modeler}.

(** [parentChain r n path]: every node of [path] is a node of [r], [path]
    starts at a root (parent index negative), each node is followed by one
    of its children, and [path] ends at [n]. The chain has
    [length path - 1] parent links. *)
Inductive parentChain (r : GLBRenderer) : Z → list Z → Prop :=
  | chain_root n p :
      node_out_of_range r n = false →
      NodeParents r !! Z.to_nat n = Some p →
      p < 0 →
      parentChain r n [n]
  | chain_child n p path :
      node_out_of_range r n = false →
      NodeParents r !! Z.to_nat n = Some p →
      0 ≤ p →
      parentChain r p path →
      parentChain r n (path ++ [n]).

(** The product [((m0 · m1) · m2) · ...] with [Mul4]. *)
Definition matProduct (ms : list Mat4) : Mat4 :=
  match ms with
  | [] => Ident4
  | m :: rest => foldl Mul4 m rest
  end.




(** Where OpenGL reads the texel [(x, y)] of a [TexSubImage2D] call of the
    given width with RGBA bytes and the pixel store state it starts with
    (UNPACK_ROW_LENGTH 0, UNPACK_ALIGNMENT 4), which the program never
    changes: the rows follow each other without padding. *)
Definition glTexel (width : Z) (pixels : list Byte.byte) (x y : Z)
    : list Byte.byte :=
  take 4 (drop (Z.to_nat (y * (width * 4) + x * 4)) pixels).

(** The texel [(x, y)] of a buffer whose rows are [stride] bytes apart. *)
Definition bufferTexel (stride : Z) (buffer : list Byte.byte) (x y : Z)
    : list Byte.byte :=
  take 4 (drop (Z.to_nat (y * stride + x * 4)) buffer).

(** The bone matrices among the recorded calls, with their indices. *)
Definition boneUploads (calls : list GLCall) : list (nat * Mat4) :=
  omap (λ call, match call with
                | UniformBoneMatrix i m => Some (i, m)
                | _ => None
                end) calls.

(** The [k]-th keyframe of a channel: [components_of channel] values from
    [k * components_of channel] on. *)
Definition keyframe (channel : AnimationChannel) (k : nat) : list float32 :=
  take (components_of channel)
    (drop (k * components_of channel) (Values channel)).

Definition quatOfList (l : list float32) : Quat :=
  mkQuat (vget l 3) (vget l 0, vget l 1, vget l 2).

Definition listOfQuat (q : Quat) : list float32 :=
  let '(x, y, z) := V q in [x; y; z; W q].


(** The blend of two keyframes in the words of the specification: slerp
    of the two quaternions for a rotation, [v0 + (v1 - v0) * factor] on
    each component otherwise. *)
Definition blend_spec (channel : AnimationChannel) (k0 k1 : list float32)
    (factor : float32) : list float32 :=
  if String.eqb (Path channel) "rotation"
  then listOfQuat (QuatSlerp (quatOfList k0) (quatOfList k1) factor)
  else zip_with (λ v0 v1, fadd v0 (fmul (fsub v1 v0) factor)) k0 k1.


(** One value block per timestamp. *)
Definition channelComplete (channel : AnimationChannel) : Prop :=
  length (Values channel)
  = (length (Timestamps channel) * components_of channel)%nat.

(** Enough values for interpolateKeyframes to slice without a panic. *)
Definition channelSliceable (channel : AnimationChannel) : Prop :=
  ((length (Timestamps channel) - 1) * components_of channel
   ≤ length (Values channel))%nat.

(** [channel] writes the property [path] of node [n]. *)
Definition targets (channel : AnimationChannel) (n : nat) (path : string) : Prop :=
  NodeIndex channel = Z.of_nat n ∧ Path channel = path.

(** [t1] agrees with [t0] on every property of node [n] that no channel of
    [channels] targets. *)
Definition keepsUntargeted (channels : list AnimationChannel) (n : nat)
    (t0 t1 : NodeTransform) : Prop :=
  ((∀ ch, ch ∈ channels → ¬ targets ch n "translation") →
   Translation t1 = Translation t0)
  ∧ ((∀ ch, ch ∈ channels → ¬ targets ch n "rotation") →
     Rotation t1 = Rotation t0)
  ∧ ((∀ ch, ch ∈ channels → ¬ targets ch n "scale") →
     Scale t1 = Scale t0).

(** The channels UpdateAnimation passes over for [nodes] nodes. *)
Definition skipped (nodes : nat) (channel : AnimationChannel) : bool :=
  (NodeIndex channel <? 0) || (Z.of_nat nodes <=? NodeIndex channel)
  || (length (Timestamps channel) =? 0)%nat.

(** The index found by the search in interpolateKeyframes. *)
Definition searchIndex (channel : AnimationChannel) (t : float32) : nat :=
  sort_Search (length (Timestamps channel))
    (λ i, fltb t (vget (Timestamps channel) i)).


(** The arithmetic is exact where a blend factor of zero is computed and
    used. *)
Class ExactAtZero : Prop := {
  fsub_diag a : fsub a a = f0;
  fsub_pos a b : fltb a b = true → fltb f0 (fsub b a) = true;
  fdiv_0_l b : fltb f0 b = true → fdiv f0 b = f0;
  fmul_0_r a : fmul a f0 = f0;
  fadd_0_r a : fadd a f0 = a;
  f0_lt_f1 : fltb f0 f1 = true;
}.

End Notions.

(** ** Further notions *)

Section MoreNotions.
Context {F32 : Float32} {M32 : Mgl32} {MOD : Modeler}.

(** The draw call Render issues for a mesh. *)
Definition drawOf (mesh : Mesh) : GLCall :=
  if HasIndices mesh then DrawElements (IndexCount mesh)
  else DrawArrays (VertexCount mesh).

(** The draw calls among the recorded calls. *)
Definition drawCalls (calls : list GLCall) : list GLCall :=
  omap (λ call, match call with
                | DrawElements _ | DrawArrays _ => Some call
                | _ => None
                end) calls.


(** A channel whose path is none of the three names in the switch of
    UpdateAnimation. *)
Definition namesNoProperty (channel : AnimationChannel) : Prop :=
  Path channel ≠ "translation" ∧ Path channel ≠ "rotation"
  ∧ Path channel ≠ "scale".

Definition clipsNameNoProperty (anims : gmap string Animation) : Prop :=
  ∀ name a, anims !! name = Some a → Forall namesNoProperty (Channels a).


(** The floats OpenGL fetches for the attribute at [location] of vertex
    [i] from a buffer of floats, by the attribute pointers and the stride
    of loadPrimitive. *)
Definition vertexAttribute (data : list float32) (location : Z) (i : nat)
    : list float32 :=
  match list_find (λ p, p.1.1 = location) attributePointers with
  | Some (_, (_, size, offset)) =>
      take (Z.to_nat size)
        (drop (Z.to_nat ((Z.of_nat i * vertexStride + offset) / 4)) data)
  | None => []
  end.

End MoreNotions.

(** ** Concrete scenes over the integer instance *)

Module Scenes.
Import IntModel.



Definition second : Z := 1000000000.

Definition restRoot : NodeTransform :=
  mkNodeTransform (0, 0, 0) (mkQuat 1 (0, 0, 0)) (1, 1, 1).

Definition restChild : NodeTransform :=
  mkNodeTransform (0, 2, 0) (mkQuat 1 (0, 0, 0)) (1, 1, 1).

(** The root moved by the last keyframe of [slide]. *)
Definition movedRoot : NodeTransform :=
  mkNodeTransform (10, 5, 0) (mkQuat 1 (0, 0, 0)) (1, 1, 1).

(** A clip that moves node 0 and lasts four seconds. *)
Definition slideChannel : AnimationChannel :=
  mkChannel 0 "translation" [0; 2; 4] [0; 0; 0; 10; 0; 0; 10; 5; 0].

Definition slide : Animation := mkAnimation "slide" [slideChannel] 4.

(** A rotation channel with three unit quaternions. *)
Definition turnChannel : AnimationChannel :=
  mkChannel 1 "rotation" [0; 2; 4] [0; 0; 0; 1; 0; 0; 1; 0; 0; 1; 0; 0].

Definition rigSkin : Skin := mkSkin [0; 1] [Ident4; Ident4].

(** Two joints, node 1 the child of node 0, one mesh skinned by both. *)
Definition rig : GLBRenderer :=
  mkRenderer [mkMesh 0 false 3 0 0] 1 0 0 {[ "slide" := slide ]}
    [restRoot; restChild] [restRoot; restChild] None 0 false None
    [rigSkin] [-1; 0] [Ident4; Ident4].

(** The renderer NewGLBRenderer returns. *)
Definition fresh : GLBRenderer :=
  mkRenderer [] 1 0 0 ∅ [] [] None 0 false None [] [] [].

Definition triangle : Primitive := mkPrimitive {[ "POSITION" := 0 ]} None.

Definition positions : Accessor := mkAccessor (Some 0) 0 AccessorVec3 3.

(** One node that lists itself as its child. *)
Definition selfParentDoc : Document :=
  mkDocument [mkGltfNode [0] (0, 0, 0) (0, 0, 0, 1) (1, 1, 1) (Some 0) None]
    [mkGltfMesh [triangle]] [] [] [positions] [mkBufferView 0 0]
    [mkBuffer []].

(** The positions (0,0,0), (1,0,0) and (0,1,0) as the bytes of their
    float32 bit patterns. *)
Definition triangleBytes : list Byte.byte :=
  concat (PutUint32 <$> [0; 0; 0; 1065353216; 0; 0; 0; 1065353216; 0]).

(** One mesh with a skin of 129 joints, all of them the one node, which is
    moved by (3,0,0). *)
Definition longSkinDoc : Document :=
  mkDocument
    [mkGltfNode [] (3, 0, 0) (0, 0, 0, 1) (1, 1, 1) (Some 0) (Some 0)]
    [mkGltfMesh [triangle]] [mkGltfSkin (replicate 129 0) None] []
    [positions] [mkBufferView 0 0] [mkBuffer triangleBytes].

(** Two rows of two pixels, each row followed by four bytes of padding:
    a stride of 12 for a width of 2. *)
Definition paddedBuffer : list Byte.byte :=
  [x01; x01; x01; x01; x02; x02; x02; x02; x00; x00; x00; x00;
   x03; x03; x03; x03; x04; x04; x04; x04; x00; x00; x00; x00]%byte.

(** [rig] with [slide] started at time 0, not looping. *)
Definition playing : GLBRenderer := (PlayAnimation rig "slide" false 0).1.

(** [rig] with the root left at the last pose of [slide]. *)
Definition posed : GLBRenderer := set_NodeTransforms rig [movedRoot; restChild].

End Scenes.

(** Further scenes: clips, a document with an animation, a server. *)
Module MoreScenes.
Import IntModel Scenes.

(** [rig] with [slide] started at time 0, looping. *)
Definition looping : GLBRenderer := (PlayAnimation rig "slide" true 0).1.

(** A clip of duration 0, and a renderer that plays it in a loop. *)
Definition still : Animation :=
  mkAnimation "still" [mkChannel 0 "translation" [0] [1; 1; 1]] 0.

Definition stillLooping : GLBRenderer :=
  mkRenderer [mkMesh 0 false 3 0 (-1)] 1 0 0 {[ "still" := still ]}
    [restRoot] [restRoot] (Some still) 0 true None [] [-1] [].





(** A channel with a single keyframe. *)
Definition pulse : AnimationChannel := mkChannel 0 "scale" [0] [2; 2; 2].

(** A second translation channel for node 0. *)
Definition override : AnimationChannel :=
  mkChannel 0 "translation" [0] [7; 7; 7].

(** One node with a mesh and a clip with a translation channel for it
    (TRSTranslation = 0): accessor 1 holds the timestamps 0 and 2,
    accessor 2 the translations (0,0,0) and (5,0,0). *)
Definition animatedDoc : Document :=
  mkDocument [mkGltfNode [] (0, 0, 0) (0, 0, 0, 1) (1, 1, 1) (Some 0) None]
    [mkGltfMesh [triangle]] []
    [mkGltfAnimation "move" [mkGltfChannel 0 (Some 0) 0]
       [mkGltfSampler 1 2]]
    [positions; mkAccessor (Some 0) 0 AccessorScalar 2;
     mkAccessor (Some 0) 8 AccessorVec3 2]
    [mkBufferView 0 0]
    [mkBuffer (concat (PutUint32 <$> [0; 2; 0; 0; 0; 5; 0; 0]))].

(** A skin whose inverse-bind accessor does not exist. *)
Definition brokenSkin : GltfSkin := mkGltfSkin [0] (Some 7).

(** A server with two clients and both handlers. *)
Definition inputServer : WebSocketServer :=
  mkServer {[ 1%nat; 2%nat ]} true true.

End MoreScenes.

(** * Properties *)

(** ** Global transforms *)

Section SceneGraph.
Context {F32 : Float32} {M32 : Mgl32} {MOD : Modeler}.

Lemma parentChain_nonempty (r : GLBRenderer) n path :
  parentChain r n path → path ≠ [].
Proof. destruct 1; [done | by destruct path]. Qed.

Lemma matProduct_snoc (ms : list Mat4) (m : Mat4) :
  ms ≠ [] → matProduct (ms ++ [m]) = Mul4 (matProduct ms) m.
Proof.
  destruct ms as [|m0 rest]; [done | intros _].
  simpl. by rewrite foldl_app.
Qed.

Lemma at_index_lookup {A} (l : list A) (i : Z) (x : A) :
  0 ≤ i → l !! Z.to_nat i = Some x → at_index l i = Done x.
Proof.
  intros Hi Hx. unfold at_index.
  destruct (Z.ltb_spec i 0); [lia |]. by rewrite Hx.
Qed.

Lemma node_in_range_nonneg (r : GLBRenderer) n :
  node_out_of_range r n = false → 0 ≤ n ∧ n < len (NodeTransforms r).
Proof.
  unfold node_out_of_range. intros [H1 H2]%orb_false_elim.
  apply Z.ltb_ge in H1. apply Z.leb_gt in H2. done.
Qed.

Lemma getGlobal_chain (r : GLBRenderer) n path :
  parentChain r n path →
  ∀ fuel, (length path ≤ fuel)%nat →
    getGlobalNodeTransform fuel r n
    = Done (matProduct (getNodeTransformMatrix r <$> path)).
Proof.
  induction 1 as [n p Hn Hp Hneg | n p path Hn Hp Hpos Hchain IH];
    intros fuel Hfuel; rewrite ?length_app in Hfuel; simpl in Hfuel;
    (destruct fuel as [|fuel]; [lia |]);
    destruct (node_in_range_nonneg _ _ Hn) as [Hn0 _].
  - cbn [getGlobalNodeTransform]. rewrite Hn.
    rewrite (at_index_lookup _ _ p) by done.
    cbn. destruct (Z.leb_spec 0 p); [lia | done].
  - cbn [getGlobalNodeTransform]. rewrite Hn.
    rewrite (at_index_lookup _ _ p) by done.
    cbn [mbind outcome_bind]. destruct (Z.leb_spec 0 p); [| lia].
    rewrite IH by lia. cbn [mbind outcome_bind].
    rewrite fmap_app. cbn [fmap list_fmap]. rewrite matProduct_snoc; [done |].
    apply parentChain_nonempty in Hchain. by destruct path.
Qed.

Lemma parentChain_last (r : GLBRenderer) n path :
  parentChain r n path → last path = Some n.
Proof. destruct 1; [done | by rewrite last_snoc]. Qed.

Lemma parentChain_in_range (r : GLBRenderer) n path :
  parentChain r n path → ∀ k, k ∈ path → node_out_of_range r k = false.
Proof.
  induction 1 as [n p Hn Hp Hneg | n p path Hn Hp Hpos Hchain IH]; intros k Hk.
  - apply list_elem_of_singleton in Hk. by subst.
  - apply elem_of_app in Hk as [Hk | Hk]; [by apply IH |].
    apply list_elem_of_singleton in Hk. by subst.
Qed.

(** C6. For a node [n] whose parent chain reaches a root after [d] links
    ([path] lists the [d + 1] nodes from the root down to [n]), the global
    transform is returned by every call with more than [d] levels of
    recursion, and it is the product, nested to the left, of the local
    matrices along [path]; the local matrix of each node of the path is
    [Translate3D · QuatMat4 · Scale3D] of its current transform. *)
Theorem global_transform_is_chain_product (r : GLBRenderer) (n : Z)
    (path : list Z) (d : nat) :
  parentChain r n path →
  length path = S d →
  (∀ fuel, (d < fuel)%nat →
     getGlobalNodeTransform fuel r n
     = Done (matProduct (getNodeTransformMatrix r <$> path)))
  ∧ last path = Some n
  ∧ (∀ k, k ∈ path →
       ∃ t, NodeTransforms r !! Z.to_nat k = Some t
         ∧ getNodeTransformMatrix r k
           = Mul4 (Mul4 (Translate3D (Translation t).1.1 (Translation t).1.2
                           (Translation t).2)
                        (QuatMat4 (Rotation t)))
                  (Scale3D (Scale t).1.1 (Scale t).1.2 (Scale t).2)).
Proof.
  intros Hchain Hlen. split; [| split].
  - intros fuel Hfuel. apply getGlobal_chain; [done | lia].
  - by eapply parentChain_last.
  - intros k Hk.
    pose proof (parentChain_in_range _ _ _ Hchain k Hk) as Hr.
    destruct (node_in_range_nonneg _ _ Hr) as [Hk0 Hlt].
    destruct (lookup_lt_is_Some_2 (NodeTransforms r) (Z.to_nat k)) as [t Ht].
    { unfold len in Hlt. lia. }
    exists t. split; [done |].
    unfold getNodeTransformMatrix. rewrite Hr, Ht.
    unfold transformMatrix.
    by destruct (Translation t) as [[??]?], (Scale t) as [[??]?].
Qed.




End SceneGraph.

(** ** Bone matrices *)

Section Skinning.
Context {F32 : Float32} {M32 : Mgl32} {MOD : Modeler}.

Lemma boneLoop_spec (fuel : nat) (r : GLBRenderer) (skin : Skin) :
  ∀ (joints : list Z) (i : nat) (bones : list Mat4),
    (i + length joints ≤ length bones)%nat →
    (∀ k j, joints !! k = Some j →
       ∃ g ibm, getGlobalNodeTransform fuel r j = Done g
              ∧ InverseBindMatrices skin !! (i + k)%nat = Some ibm) →
    ∃ bones',
      boneLoop fuel r skin i joints bones = Done bones'
      ∧ length bones' = length bones
      ∧ (∀ k, (k < i)%nat → bones' !! k = bones !! k)
      ∧ (∀ k j g ibm,
           joints !! k = Some j →
           getGlobalNodeTransform fuel r j = Done g →
           InverseBindMatrices skin !! (i + k)%nat = Some ibm →
           bones' !! (i + k)%nat = Some (Mul4 g ibm)).
Proof.
  induction joints as [|joint rest IH]; intros i bones Hlen Hok.
  - exists bones. do 3 (split; [done |]).
    intros k j g ibm Hk. by rewrite lookup_nil in Hk.
  - cbn [length] in Hlen.
    destruct (Hok 0%nat joint eq_refl) as (g & ibm & Hg & Hibm).
    rewrite Nat.add_0_r in Hibm.
    cbn [boneLoop]. rewrite Hg. cbn [mbind outcome_bind].
    rewrite (at_index_lookup _ _ ibm); [| lia | by rewrite Nat2Z.id].
    destruct (decide (i < length bones)%nat) as [Hi|]; [| lia].
    destruct (IH (S i) (<[i := Mul4 g ibm]> bones)) as (bones' & Hrun & Hl & Hlow & Hset).
    { rewrite length_insert. lia. }
    { intros k j Hk. destruct (Hok (S k) j Hk) as (g' & ibm' & ? & ?).
      exists g', ibm'. split; [done |].
      by replace (S i + k)%nat with (i + S k)%nat by lia. }
    exists bones'. split; [done |]. split.
    { by rewrite Hl, length_insert. }
    split.
    + intros k Hk. rewrite Hlow by lia.
      apply list_lookup_insert_ne. lia.
    + intros [|k] j g' ibm' Hk Hg' Hibm'.
      * injection Hk as <-. rewrite Nat.add_0_r in *.
        rewrite Hlow by lia. rewrite list_lookup_insert_eq by done.
        congruence.
      * replace (i + S k)%nat with (S i + k)%nat in * by lia.
        by eapply Hset.
Qed.


End Skinning.

(** ** Keyframe interpolation *)

Section BinarySearch.

Lemma half_between (i j : nat) :
  (i < j)%nat → (i ≤ (i + j) / 2 < j)%nat.
Proof.
  intros Hij.
  pose proof (Nat.div_mod_eq (i + j) 2) as Hd.
  pose proof (Nat.mod_upper_bound (i + j) 2). lia.
Qed.

(** The loop keeps its result inside [[i, j]]. *)
Lemma search_loop_bounds (f : nat → bool) (turns i j : nat) :
  (i ≤ j)%nat → (i ≤ search_loop turns f i j ≤ j)%nat.
Proof.
  revert i j.
  induction turns as [|turns IH]; intros i j Hij; cbn [search_loop]; [lia |].
  destruct (Nat.ltb_spec i j) as [Hlt|]; [| lia].
  pose proof (half_between i j Hlt).
  destruct (f ((i + j) / 2)%nat); cbn [negb].
  - specialize (IH i ((i + j) / 2)%nat). lia.
  - specialize (IH ((i + j) / 2 + 1)%nat j). lia.
Qed.

(** Any number of turns from [j - i] on gives the same result: the [n]
    turns of [sort_Search] never run out. *)
Lemma search_loop_enough (f : nat → bool) (turns turns' i j : nat) :
  (j - i ≤ turns)%nat → (j - i ≤ turns')%nat →
  search_loop turns f i j = search_loop turns' f i j.
Proof.
  revert turns' i j. induction turns as [|turns IH]; intros turns' i j H1 H2.
  - destruct turns'; cbn [search_loop]; [done |].
    by destruct (Nat.ltb_spec i j); [lia |].
  - cbn [search_loop]. destruct (Nat.ltb_spec i j) as [Hlt|Hge].
    + destruct turns' as [|turns']; [lia |]. cbn [search_loop].
      destruct (Nat.ltb_spec i j); [| lia].
      pose proof (half_between i j Hlt).
      destruct (f ((i + j) / 2)%nat); cbn [negb]; apply IH; lia.
    + destruct turns'; cbn [search_loop]; [done |].
      by destruct (Nat.ltb_spec i j); [lia |].
Qed.



End BinarySearch.

Section Interpolation.
Context {F32 : Float32} {M32 : Mgl32} {MOD : Modeler}.


Lemma components_pos (channel : AnimationChannel) :
  (0 < components_of channel)%nat.
Proof. unfold components_of. destruct (is_rotation channel); lia. Qed.



Lemma slice_keyframe (channel : AnimationChannel) (k : nat) :
  (k * components_of channel + components_of channel
   ≤ length (Values channel))%nat →
  slice (Values channel) (k * components_of channel)
    (k * components_of channel + components_of channel)
  = Done (keyframe channel k).
Proof.
  intros Hlen. unfold slice, keyframe.
  destruct (decide _) as [_|Hno]; [| lia].
  do 2 f_equal. lia.
Qed.

Lemma keyframe_length (channel : AnimationChannel) (k : nat) :
  (k * components_of channel + components_of channel
   ≤ length (Values channel))%nat →
  length (keyframe channel k) = components_of channel.
Proof.
  intros Hlen. unfold keyframe. rewrite length_take, length_drop. lia.
Qed.

Lemma vget_keyframe (channel : AnimationChannel) (k i : nat) :
  (i < components_of channel)%nat →
  vget (keyframe channel k) i
  = vget (Values channel) (k * components_of channel + i).
Proof.
  intros Hi. unfold vget, keyframe.
  by rewrite lookup_take_lt, lookup_drop.
Qed.

(** A list of three or four values is the list of its reads. *)
Lemma list3_vget (l : list float32) :
  length l = 3%nat → l = [vget l 0; vget l 1; vget l 2].
Proof. by destruct l as [|a [|b [|c [|]]]]. Qed.


(** The blend of the source is the blend of the specification on the two
    keyframes. *)
Lemma blend_is_blend_spec (channel : AnimationChannel) (k : nat)
    (factor : float32) :
  ((k + 1) * components_of channel + components_of channel
   ≤ length (Values channel))%nat →
  blend channel (k * components_of channel) ((k + 1) * components_of channel)
    factor
  = blend_spec channel (keyframe channel k) (keyframe channel (k + 1)) factor.
Proof.
  intros Hlen. unfold blend, blend_spec, quatOfList, lerp.
  fold (is_rotation channel).
  assert (length (keyframe channel k) = components_of channel) as Hk0
    by (apply keyframe_length; lia).
  assert (length (keyframe channel (k + 1)) = components_of channel) as Hk1
    by (apply keyframe_length; lia).
  destruct (is_rotation channel) eqn:Hrot.
  - assert (components_of channel = 4%nat) as Hc
      by (unfold components_of; by rewrite Hrot).
    rewrite !vget_keyframe by lia. rewrite Hc, Nat.add_0_r, Nat.add_0_r.
    done.
  - assert (components_of channel = 3%nat) as Hc
      by (unfold components_of; by rewrite Hrot).
    rewrite (list3_vget (keyframe channel k)) by congruence.
    rewrite (list3_vget (keyframe channel (k + 1))) by congruence.
    rewrite !vget_keyframe by lia. rewrite Hc. done.
Qed.

(** interpolateKeyframes by the position of the index found. *)
Lemma interpolate_by_index (channel : AnimationChannel) (t : float32) :
  Timestamps channel ≠ [] →
  channelComplete channel →
  let count := length (Timestamps channel) in
  let idx := searchIndex channel t in
  (idx ≤ count)%nat →
  interpolateKeyframes channel t
  = if (idx =? 0)%nat then Done (keyframe channel 0)
    else if (idx =? count)%nat then Done (keyframe channel (count - 1))
    else Done (blend_spec channel (keyframe channel (idx - 1))
                 (keyframe channel idx)
                 (blend_factor t (vget (Timestamps channel) (idx - 1))
                    (vget (Timestamps channel) idx))).
Proof.
  intros Hne Hcomplete count idx Hidx.
  assert (0 < count)%nat as Hcount.
  { subst count. destruct (Timestamps channel); [done | cbn; lia]. }
  pose proof (components_pos channel) as Hc.
  unfold channelComplete in Hcomplete. fold count in Hcomplete.
  unfold interpolateKeyframes. fold (searchIndex channel t). fold count idx.
  destruct (Nat.eqb_spec count 0) as [|_]; [lia |].
  destruct (Nat.eqb_spec idx 0) as [H0|H0].
  { destruct (Nat.leb_spec (components_of channel) (length (Values channel)));
      [| nia].
    by rewrite <- (slice_keyframe channel 0) by (cbn; lia). }
  destruct (Nat.eqb_spec idx count) as [Hlast|Hlast].
  { destruct (Nat.leb_spec ((count - 1) * components_of channel
                            + components_of channel)
                (length (Values channel))); [| nia].
    apply slice_keyframe. nia. }
  destruct (Nat.ltb_spec (length (Values channel))
              ((idx - 1 + 1) * components_of channel + components_of channel));
    [nia |].
  rewrite blend_is_blend_spec by nia.
  by replace (idx - 1 + 1)%nat with idx by lia.
Qed.


Lemma lerp_zero `{!ExactAtZero} (v0 v1 : float32) : lerp v0 v1 f0 = v0.
Proof. unfold lerp. by rewrite fmul_0_r, fadd_0_r. Qed.



End Interpolation.

(** ** Playback *)

Section Playback.
Context {F32 : Float32} {M32 : Mgl32} {MOD : Modeler}.

Lemma searchIndex_le (channel : AnimationChannel) (t : float32) :
  (searchIndex channel t ≤ length (Timestamps channel))%nat.
Proof.
  unfold searchIndex, sort_Search.
  pose proof (search_loop_bounds (λ i, fltb t (vget (Timestamps channel) i))
                (length (Timestamps channel)) 0 (length (Timestamps channel))).
  lia.
Qed.

Lemma slice_in_range {A} (l : list A) (lo hi : nat) :
  (lo ≤ hi ≤ length l)%nat → ∃ v, slice l lo hi = Done v.
Proof.
  intros Hr. unfold slice. destruct (decide _); [by eexists | lia].
Qed.

(** With enough values interpolateKeyframes returns. *)
Lemma interpolate_returns (channel : AnimationChannel) (t : float32) :
  channelSliceable channel → ∃ v, interpolateKeyframes channel t = Done v.
Proof.
  unfold channelSliceable. intros Hok.
  pose proof (searchIndex_le channel t) as Hle.
  pose proof (components_pos channel) as Hc.
  unfold interpolateKeyframes. fold (searchIndex channel t).
  set (idx := searchIndex channel t) in *. clearbody idx.
  destruct (Nat.eqb_spec (length (Timestamps channel)) 0); [by eexists |].
  destruct (Nat.eqb_spec idx 0).
  { destruct (Nat.leb_spec (components_of channel) (length (Values channel)));
      [apply slice_in_range; lia | by eexists]. }
  destruct (Nat.eqb_spec idx (length (Timestamps channel))).
  { match goal with
    | |- context [(?a <=? ?b)%nat] => destruct (Nat.leb_spec a b)
    end; [apply slice_in_range; lia | by eexists]. }
  match goal with
  | |- context [(?a <? ?b)%nat] => destruct (Nat.ltb_spec a b)
  end; [| by eexists].
  apply slice_in_range. nia.
Qed.

Lemma interpolate_empty (channel : AnimationChannel) (t : float32) :
  Timestamps channel = [] → interpolateKeyframes channel t = Done [].
Proof. unfold interpolateKeyframes. by intros ->. Qed.

Lemma writeProperty_nil (path : string) (t : NodeTransform) :
  writeProperty path [] t = t.
Proof.
  unfold writeProperty.
  by destruct (String.eqb path "translation"), (String.eqb path "rotation"),
    (String.eqb path "scale").
Qed.

Lemma applyChannel_length (elapsed : float32) (nts nts' : list NodeTransform)
    (channel : AnimationChannel) :
  applyChannel elapsed nts channel = Done nts' → length nts' = length nts.
Proof.
  unfold applyChannel. destruct (_ || _); [by intros [= <-] |].
  destruct (interpolateKeyframes channel elapsed); cbn; [| done | done].
  intros [= <-]. apply length_alter.
Qed.

Lemma applyChannel_skipped (elapsed : float32) (nts : list NodeTransform)
    (channel : AnimationChannel) :
  skipped (length nts) channel = true →
  applyChannel elapsed nts channel = Done nts.
Proof.
  unfold skipped, applyChannel, len.
  destruct ((NodeIndex channel <? 0) || _); [done |].
  cbn [orb]. intros Hts%Nat.eqb_eq.
  rewrite interpolate_empty by (by destruct (Timestamps channel)).
  cbn. f_equal. apply list_alter_id. intros t. apply writeProperty_nil.
Qed.

Lemma applyChannels_filter_skipped (elapsed : float32)
    (channels : list AnimationChannel) (nts : list NodeTransform) :
  applyChannels elapsed channels nts
  = applyChannels elapsed
      (filter (λ channel, skipped (length nts) channel = false) channels) nts.
Proof.
  revert nts. induction channels as [|channel rest IH]; intros nts; [done |].
  rewrite filter_cons. destruct (decide _) as [Hkeep|Hskip].
  - cbn [applyChannels].
    destruct (applyChannel elapsed nts channel) as [nts'| |] eqn:Hrun; [| done..].
    cbn. rewrite IH. by rewrite (applyChannel_length _ _ _ _ Hrun).
  - apply not_false_is_true in Hskip. cbn [applyChannels].
    rewrite applyChannel_skipped by done. cbn. apply IH.
Qed.

(** C10. A channel whose node index is negative or not below the number
    of nodes, or whose timestamp list is empty, is passed over: applying it
    returns the node transforms unchanged; interpolateKeyframes returns nil
    for an empty timestamp list; and the loop over the channels of a clip
    gives the same result with those channels removed. *)
Theorem skipped_channels_change_nothing (elapsed : float32)
    (nts : list NodeTransform) (channels : list AnimationChannel) :
  (∀ channel,
     (NodeIndex channel < 0 ∨ len nts ≤ NodeIndex channel
      ∨ Timestamps channel = []) →
     applyChannel elapsed nts channel = Done nts)
  ∧ (∀ channel, Timestamps channel = [] →
       interpolateKeyframes channel elapsed = Done [])
  ∧ applyChannels elapsed channels nts
    = applyChannels elapsed
        (filter (λ channel, skipped (length nts) channel = false) channels)
        nts.
Proof.
  split; [| split].
  - intros channel Hbad. apply applyChannel_skipped. unfold skipped, len in *.
    destruct Hbad as [Hneg | [Hbig | Hts]].
    + by destruct (Z.ltb_spec (NodeIndex channel) 0); [| lia].
    + destruct (Z.leb_spec (Z.of_nat (length nts)) (NodeIndex channel));
        [| lia]. by rewrite orb_true_r.
    + rewrite Hts. by rewrite orb_true_r.
  - intros channel. apply interpolate_empty.
  - apply applyChannels_filter_skipped.
Qed.

Lemma writeProperty_frame (path : string) (value : list float32)
    (t : NodeTransform) :
  (path ≠ "translation" →
   Translation (writeProperty path value t) = Translation t)
  ∧ (path ≠ "rotation" → Rotation (writeProperty path value t) = Rotation t)
  ∧ (path ≠ "scale" → Scale (writeProperty path value t) = Scale t).
Proof.
  unfold writeProperty.
  destruct (String.eqb_spec path "translation") as [->|];
    [| destruct (String.eqb_spec path "rotation") as [->|];
       [| destruct (String.eqb_spec path "scale") as [->|]]];
    repeat match goal with
      | |- context [(?a <=? ?b)%nat] => destruct (a <=? b)%nat
      end; done.
Qed.

Lemma keepsUntargeted_refl (channels : list AnimationChannel) (n : nat)
    (t : NodeTransform) :
  keepsUntargeted channels n t t.
Proof. by repeat split. Qed.

Lemma keepsUntargeted_cons (channel : AnimationChannel)
    (rest : list AnimationChannel) (n : nat) (t0 t1 t2 : NodeTransform) :
  keepsUntargeted [channel] n t0 t1 →
  keepsUntargeted rest n t1 t2 →
  keepsUntargeted (channel :: rest) n t0 t2.
Proof.
  intros (Ht & Hr & Hs) (Ht' & Hr' & Hs').
  assert (∀ P : AnimationChannel → Prop,
            (∀ ch, ch ∈ channel :: rest → P ch) →
            (∀ ch, ch ∈ [channel] → P ch) ∧ (∀ ch, ch ∈ rest → P ch)) as Hsplit.
  { intros P HP. split; intros ch Hch; apply HP, elem_of_cons.
    - left. by apply list_elem_of_singleton.
    - by right. }
  repeat split; intros Hno; destruct (Hsplit _ Hno) as [Hhead Htail].
  - by rewrite Ht', Ht.
  - by rewrite Hr', Hr.
  - by rewrite Hs', Hs.
Qed.

(** One channel writes one property of one node. *)
Lemma applyChannel_frame (elapsed : float32) (nts nts' : list NodeTransform)
    (channel : AnimationChannel) :
  applyChannel elapsed nts channel = Done nts' →
  ∀ n t0, nts !! n = Some t0 →
    ∃ t1, nts' !! n = Some t1 ∧ keepsUntargeted [channel] n t0 t1.
Proof.
  unfold applyChannel.
  destruct (Z.ltb_spec (NodeIndex channel) 0) as [|Hpos]; cbn [orb].
  { intros [= <-] n t0 Hn. exists t0. split; [done |].
    apply keepsUntargeted_refl. }
  destruct (len nts <=? NodeIndex channel).
  { intros [= <-] n t0 Hn. exists t0. split; [done |].
    apply keepsUntargeted_refl. }
  destruct (interpolateKeyframes channel elapsed) as [value| |]; cbn;
    [| done | done].
  intros [= <-] n t0 Hn.
  destruct (decide (n = Z.to_nat (NodeIndex channel))) as [->|Hne].
  - rewrite list_lookup_alter_eq, Hn. cbn. eexists. split; [done |].
    destruct (writeProperty_frame (Path channel) value t0) as (Ht & Hr & Hs).
    unfold keepsUntargeted, targets.
    repeat split; intros Hno;
      [apply Ht | apply Hr | apply Hs];
      intros Hpath; apply (Hno channel);
      try (by apply list_elem_of_singleton); (split; [lia | done]).
  - rewrite list_lookup_alter_ne by done. exists t0. split; [done |].
    apply keepsUntargeted_refl.
Qed.

Lemma applyChannels_frame (elapsed : float32)
    (channels : list AnimationChannel) :
  ∀ nts nts', applyChannels elapsed channels nts = Done nts' →
    ∀ n t0, nts !! n = Some t0 →
      ∃ t1, nts' !! n = Some t1 ∧ keepsUntargeted channels n t0 t1.
Proof.
  induction channels as [|channel rest IH]; intros nts nts'; cbn [applyChannels].
  - intros [= <-] n t0 Hn. exists t0. split; [done |].
    apply keepsUntargeted_refl.
  - destruct (applyChannel elapsed nts channel) as [nts1| |] eqn:Hrun; cbn;
      [| done | done].
    intros Hrest n t0 Hn.
    destruct (applyChannel_frame _ _ _ _ Hrun n t0 Hn) as (t1 & Hn1 & Hk1).
    destruct (IH _ _ Hrest n t1 Hn1) as (t2 & Hn2 & Hk2).
    exists t2. split; [done |]. by eapply keepsUntargeted_cons.
Qed.

Lemma applyChannels_returns (elapsed : float32)
    (channels : list AnimationChannel) :
  Forall channelSliceable channels →
  ∀ nts, ∃ nts', applyChannels elapsed channels nts = Done nts'
               ∧ length nts' = length nts.
Proof.
  induction 1 as [|channel rest Hok _ IH]; intros nts; cbn [applyChannels].
  - by exists nts.
  - assert (∃ nts1, applyChannel elapsed nts channel = Done nts1) as [nts1 Hrun].
    { unfold applyChannel. destruct (_ || _); [by eexists |].
      destruct (interpolate_returns channel elapsed Hok) as [v ->].
      by eexists. }
    rewrite Hrun. cbn. destruct (IH nts1) as (nts' & Hrest & Hlen).
    exists nts'. split; [done |].
    by rewrite Hlen, (applyChannel_length _ _ _ _ Hrun).
Qed.

Lemma resetToBase_same_length (r : GLBRenderer) :
  length (BaseTransforms r) = length (NodeTransforms r) →
  resetToBase r = Done (BaseTransforms r).
Proof.
  intros Hlen. unfold resetToBase.
  destruct (decide _); [| lia]. by rewrite <- Hlen, firstn_all.
Qed.

(** What the switch of UpdateAnimation writes. *)
Lemma writeProperty_writes (path : string) (value : list float32)
    (t : NodeTransform) :
  (path = "translation" → (3 ≤ length value)%nat →
   Translation (writeProperty path value t)
   = (vget value 0, vget value 1, vget value 2))
  ∧ (path = "rotation" → (4 ≤ length value)%nat →
     Rotation (writeProperty path value t)
     = mkQuat (vget value 3) (vget value 0, vget value 1, vget value 2))
  ∧ (path = "scale" → (3 ≤ length value)%nat →
     Scale (writeProperty path value t)
     = (vget value 0, vget value 1, vget value 2)).
Proof.
  unfold writeProperty. repeat split; intros -> Hlen; cbn [String.eqb Ascii.eqb Bool.eqb];
    match goal with
    | |- context [(?a <=? ?b)%nat] => destruct (Nat.leb_spec a b); [done | lia]
    end.
Qed.

Lemma applyChannels_length (elapsed : float32)
    (channels : list AnimationChannel) :
  ∀ nts nts', applyChannels elapsed channels nts = Done nts' →
    length nts' = length nts.
Proof.
  induction channels as [|channel rest IH]; intros nts nts'; cbn [applyChannels].
  - by intros [= <-].
  - destruct (applyChannel elapsed nts channel) as [nts1| |] eqn:Hrun;
      cbn [mbind outcome_bind]; [| done | done].
    intros Hrest%IH. by rewrite Hrest, (applyChannel_length _ _ _ _ Hrun).
Qed.

Lemma applyChannels_app (elapsed : float32)
    (pre post : list AnimationChannel) :
  ∀ nts, applyChannels elapsed (pre ++ post) nts
         = (nts1 ← applyChannels elapsed pre nts;
            applyChannels elapsed post nts1).
Proof.
  induction pre as [|channel pre IH]; intros nts; cbn [app applyChannels];
    [done |].
  destruct (applyChannel elapsed nts channel) as [nts1| |];
    cbn [mbind outcome_bind]; [apply IH | done | done].
Qed.

(** The last channel of a clip that targets a property of a node decides
    that property. *)
Lemma applyChannels_writes (elapsed : float32)
    (pre post : list AnimationChannel) (channel : AnimationChannel)
    (nts nts' : list NodeTransform) (n : nat) (value : list float32) :
  applyChannels elapsed (pre ++ channel :: post) nts = Done nts' →
  NodeIndex channel = Z.of_nat n →
  (n < length nts)%nat →
  (∀ later, later ∈ post → ¬ targets later n (Path channel)) →
  interpolateKeyframes channel elapsed = Done value →
  ∃ cur,
    nts' !! n = Some cur
    ∧ (Path channel = "translation" → (3 ≤ length value)%nat →
       Translation cur = (vget value 0, vget value 1, vget value 2))
    ∧ (Path channel = "rotation" → (4 ≤ length value)%nat →
       Rotation cur
       = mkQuat (vget value 3) (vget value 0, vget value 1, vget value 2))
    ∧ (Path channel = "scale" → (3 ≤ length value)%nat →
       Scale cur = (vget value 0, vget value 1, vget value 2)).
Proof.
  intros Hrun Hnode Hn Hlast Hvalue. rewrite applyChannels_app in Hrun.
  destruct (applyChannels elapsed pre nts) as [nts1| |] eqn:Hpre;
    cbn [mbind outcome_bind] in Hrun; [| done | done].
  apply applyChannels_length in Hpre. cbn [applyChannels] in Hrun.
  destruct (applyChannel elapsed nts1 channel) as [nts2| |] eqn:Hone;
    cbn [mbind outcome_bind] in Hrun; [| done | done].
  destruct (lookup_lt_is_Some_2 nts1 n) as [t1 Ht1]; [lia |].
  assert (nts2 !! n = Some (writeProperty (Path channel) value t1)) as Ht2.
  { revert Hone. unfold applyChannel, len. rewrite Hnode, Hvalue.
    destruct (Z.ltb_spec (Z.of_nat n) 0); [lia |].
    destruct (Z.leb_spec (Z.of_nat (length nts1)) (Z.of_nat n)); [lia |].
    cbn [orb mbind outcome_bind]. intros [= <-].
    by rewrite Nat2Z.id, list_lookup_alter_eq, Ht1. }
  destruct (applyChannels_frame _ _ _ _ Hrun n _ Ht2) as (cur & Hcur & Hkeep).
  destruct Hkeep as (Ht & Hr & Hs).
  destruct (writeProperty_writes (Path channel) value t1) as (Wt & Wr & Ws).
  exists cur. split; [done |].
  repeat split; intros Hpath Hlen.
  - rewrite Ht, Wt; [done.. |]. intros later Hin. rewrite <- Hpath. by apply Hlast.
  - rewrite Hr, Wr; [done.. |]. intros later Hin. rewrite <- Hpath. by apply Hlast.
  - rewrite Hs, Ws; [done.. |]. intros later Hin. rewrite <- Hpath. by apply Hlast.
Qed.

(** X27. UpdateAnimation (605-637), on an update in which the clip stays
    active (it loops with a positive duration, or the elapsed time has not
    passed its duration), with as many base as current transforms and
    channels that hold enough values. The update returns, and the new node
    transforms are the result of applying the channels of the clip, in
    order, to the base transforms. Each channel leaves every property it
    does not target as it finds it, so every property of every node that no
    channel of the clip targets has its base value. A property of a node
    of the renderer that a channel targets, and no later channel of the
    clip does, holds the value interpolated for that channel: the first
    three values for a translation or a scale, the quaternion of the four
    values (x, y, z, w) for a rotation. *)
Theorem update_resets_then_applies_channels (r : GLBRenderer) (now : Z)
    (anim : Animation) (elapsed : float32) :
  CurrentAnim r = Some anim →
  effectiveElapsed (AnimLoop r) (Duration anim)
    (seconds32 (now - AnimStartTime r)) = Some elapsed →
  length (BaseTransforms r) = length (NodeTransforms r) →
  Forall channelSliceable (Channels anim) →
  ∃ nts,
    UpdateAnimation r now = Done (set_NodeTransforms r nts)
    ∧ applyChannels elapsed (Channels anim) (BaseTransforms r) = Done nts
    ∧ (∀ n base, BaseTransforms r !! n = Some base →
         ∃ cur, nts !! n = Some cur
              ∧ keepsUntargeted (Channels anim) n base cur)
    ∧ (∀ channel nts0 nts1,
         applyChannel elapsed nts0 channel = Done nts1 →
         ∀ n t0, nts0 !! n = Some t0 →
           ∃ t1, nts1 !! n = Some t1 ∧ keepsUntargeted [channel] n t0 t1)
    ∧ (∀ pre channel post n value,
         Channels anim = pre ++ channel :: post →
         NodeIndex channel = Z.of_nat n →
         (n < length (NodeTransforms r))%nat →
         (∀ later, later ∈ post → ¬ targets later n (Path channel)) →
         interpolateKeyframes channel elapsed = Done value →
         ∃ cur,
           nts !! n = Some cur
           ∧ (Path channel = "translation" → (3 ≤ length value)%nat →
              Translation cur = (vget value 0, vget value 1, vget value 2))
           ∧ (Path channel = "rotation" → (4 ≤ length value)%nat →
              Rotation cur
              = mkQuat (vget value 3)
                  (vget value 0, vget value 1, vget value 2))
           ∧ (Path channel = "scale" → (3 ≤ length value)%nat →
              Scale cur = (vget value 0, vget value 1, vget value 2))).
Proof.
  intros Hanim Helapsed Hlen Hok.
  destruct (applyChannels_returns elapsed _ Hok (BaseTransforms r))
    as (nts & Hrun & _).
  exists nts. split; [| split; [done | split; [| split]]].
  - unfold UpdateAnimation. rewrite Hanim, Helapsed.
    rewrite resetToBase_same_length by done. cbn. by rewrite Hrun.
  - intros n base Hn. by eapply applyChannels_frame.
  - intros channel nts0 nts1 Hch. by eapply applyChannel_frame.
  - intros pre channel post n value Hsplit Hnode Hn Hlast Hvalue.
    rewrite Hsplit in Hrun.
    eapply applyChannels_writes; [done | done | lia | done | done].
Qed.

(** The update that ends a clip: no looping (or a duration that is not
    positive) and an elapsed time past the duration. Only [CurrentAnim]
    changes. *)
Lemma update_finished (r : GLBRenderer) (now : Z) (anim : Animation) :
  CurrentAnim r = Some anim →
  effectiveElapsed (AnimLoop r) (Duration anim)
    (seconds32 (now - AnimStartTime r)) = None →
  UpdateAnimation r now = Done (set_CurrentAnim r None).
Proof. intros Hanim Hover. unfold UpdateAnimation. by rewrite Hanim, Hover. Qed.

Lemma effectiveElapsed_no_loop (duration elapsed : float32) :
  fltb duration elapsed = true →
  effectiveElapsed false duration elapsed = None.
Proof. unfold effectiveElapsed. by intros ->. Qed.



End Playback.

(** ** Loading and drawing *)

Section Loading.
Context {F32 : Float32} {M32 : Mgl32} {MOD : Modeler}.




Lemma set_index_Done {A} (l l' : list A) (i : Z) (x : A) :
  set_index l i x = Done l' → 0 ≤ i < len l ∧ l' = <[Z.to_nat i := x]> l.
Proof.
  unfold set_index.
  destruct (Z.ltb_spec i 0); [done |].
  destruct (Z.leb_spec (len l) i); [done |]. by intros [= <-].
Qed.

Lemma setParents_length (parentIdx : Z) (children : list Z) :
  ∀ parents parents',
    setParents parentIdx parents children = Done parents' →
    length parents' = length parents.
Proof.
  unfold setParents.
  induction children as [|c rest IH]; intros parents parents'; cbn [foldM].
  - by intros [= <-].
  - destruct (set_index parents c parentIdx) as [parents1| |] eqn:Hset;
      cbn [mbind outcome_bind]; [| done | done].
    apply set_index_Done in Hset as [_ ->]. intros Hrest%IH.
    by rewrite Hrest, length_insert.
Qed.

Lemma buildParentsFrom_length (nodes : list GltfNode) :
  ∀ parentIdx parents parents',
    buildParentsFrom parentIdx nodes parents = Done parents' →
    length parents' = length parents.
Proof.
  induction nodes as [|node rest IH]; intros parentIdx parents parents';
    cbn [buildParentsFrom]; [by intros [= <-] |].
  destruct (setParents _ parents _) as [parents1| |] eqn:Hset;
    cbn [mbind outcome_bind]; [| done | done].
  intros Hrest%IH. by rewrite Hrest, (setParents_length _ _ _ _ Hset).
Qed.




Lemma loadSkin_joints (doc : Document) (skin : GltfSkin) (s : Skin) :
  loadSkin doc skin = Done s → Joints s = sJoints skin.
Proof.
  unfold loadSkin. destruct (sInverseBindMatrices skin) as [acc|].
  - destruct (readAccessorFloats doc acc) as [[matrices|]| |]; cbn;
      by intros [= <-].
  - by intros [= <-].
Qed.

Lemma loadSkins_joints (doc : Document) (skins : list GltfSkin) :
  ∀ loaded, mapM (loadSkin doc) skins = Done loaded →
    Joints <$> loaded = sJoints <$> skins.
Proof.
  induction skins as [|skin rest IH]; intros loaded; cbn [mapM].
  - by intros [= <-].
  - destruct (loadSkin doc skin) as [s| |] eqn:Hs; cbn; [| done | done].
    destruct (mapM (loadSkin doc) rest) as [ss| |]; cbn; [| done | done].
    intros [= <-]. cbn. by rewrite (loadSkin_joints _ _ _ Hs), (IH ss).
Qed.

Lemma checkAttribute_cases (doc : Document) (prim : Primitive) (key : string) :
  checkAttribute doc prim key = Done () ∨ checkAttribute doc prim key = Panic.
Proof.
  unfold checkAttribute. destruct (Attributes prim !! key) as [idx|]; [| by left].
  unfold at_index. destruct (idx <? 0); [by right |].
  destruct (Accessors doc !! Z.to_nat idx); [by left | by right].
Qed.

Lemma loadPrimitive_error (doc : Document) (prim : Primitive) (m : Mesh)
    (e : error) :
  loadPrimitive doc prim = Done (m, Some e) → e = ErrLoadPrimitive.
Proof.
  unfold loadPrimitive.
  destruct (Attributes prim !! "POSITION") as [pos|]; [| by intros [= _ <-]].
  destruct (at_index (Accessors doc) pos); cbn; [| done | done].
  destruct (ReadPosition doc pos) as [positions|]; [| by intros [= _ <-]].
  destruct (checkAttribute_cases doc prim "NORMAL") as [-> | ->]; [| done].
  destruct (checkAttribute_cases doc prim "TEXCOORD_0") as [-> | ->]; [| done].
  destruct (checkAttribute_cases doc prim "JOINTS_0") as [-> | ->]; [| done].
  destruct (checkAttribute_cases doc prim "WEIGHTS_0") as [-> | ->]; [| done].
  cbn [mbind outcome_bind].
  match goal with
  | |- context [mbind _ ?x] => destruct x as [m'| |]
  end; cbn [mbind outcome_bind]; [| done | done].
  by destruct (HasIndices m').
Qed.

Lemma loadPrimitives_error (doc : Document) (nodeIdx : nat) (node : GltfNode)
    (prims : list Primitive) :
  ∀ meshes meshes' e,
    loadPrimitives doc nodeIdx node prims meshes = Done (meshes', Some e) →
    e = ErrLoadPrimitive.
Proof.
  induction prims as [|prim rest IH]; intros meshes meshes' e;
    cbn [loadPrimitives]; [done |].
  destruct (loadPrimitive doc prim) as [[m [e'|]]| |] eqn:Hprim;
    cbn [mbind outcome_bind]; [| | done | done].
  - intros [= _ <-]. by eapply loadPrimitive_error.
  - apply IH.
Qed.

Lemma loadMeshesFrom_error (doc : Document) (nodes : list GltfNode) :
  ∀ nodeIdx meshes meshes' e,
    loadMeshesFrom doc nodeIdx nodes meshes = Done (meshes', Some e) →
    e = ErrLoadPrimitive.
Proof.
  induction nodes as [|node rest IH]; intros nodeIdx meshes meshes' e;
    cbn [loadMeshesFrom]; [done |].
  destruct (loadMeshesOfNode doc nodeIdx node meshes) as [[ms [e'|]]| |]
    eqn:Hnode; cbn [mbind outcome_bind]; [| | done | done].
  - intros [= _ <-]. revert Hnode. unfold loadMeshesOfNode.
    destruct (nMesh node) as [meshIdx|]; [| done].
    destruct (at_index (dMeshes doc) meshIdx); cbn [mbind outcome_bind];
      [| done | done].
    apply loadPrimitives_error.
  - apply IH.
Qed.

(** What LoadGLB returns for an opened document, with the skins it
    stores. *)
Lemma LoadGLB_opened (r : GLBRenderer) (doc : Document) (r' : GLBRenderer)
    (err : option error) :
  LoadGLB r (Some doc) = Done (r', err) →
  (∀ e, err = Some e → e = ErrLoadPrimitive ∨ e = ErrNoMeshes)
  ∧ Joints <$> Skins r' = (Joints <$> Skins r) ++ (sJoints <$> dSkins doc).
Proof.
  unfold LoadGLB.
  destruct (buildNodeParents doc) as [parents| |]; cbn [mbind outcome_bind];
    [| done | done].
  destruct (mapM (loadSkin doc) (dSkins doc)) as [skins| |] eqn:Hskins;
    cbn [mbind outcome_bind]; [| done | done].
  apply loadSkins_joints in Hskins.
  destruct (loadMeshesFrom doc 0 (Nodes doc) (Meshes r)) as [[meshes [e|]]| |]
    eqn:Hmeshes; cbn [mbind outcome_bind]; [| | done | done].
  - intros [= <- <-]. cbn. rewrite fmap_app, Hskins. split; [| done].
    intros e' [= <-]. left. by eapply loadMeshesFrom_error.
  - destruct (length meshes =? 0)%nat.
    + intros [= <- <-]. cbn. rewrite fmap_app, Hskins. split; [| done].
      intros e' [= <-]. by right.
    + destruct (foldM (loadAnimation doc) (Animations r) (dAnimations doc));
        cbn [mbind outcome_bind]; [| done | done].
      intros [= <- <-]. cbn. rewrite fmap_app, Hskins. by split.
Qed.

Lemma boneUploads_of_mapM (bones : list Mat4) (indices : list nat) :
  ∀ uploads,
    mapM (λ i, m ← at_index bones (Z.of_nat i); Done (UniformBoneMatrix i m))
      indices = Done uploads →
    (boneUploads uploads).*1 = indices.
Proof.
  induction indices as [|i rest IH]; intros uploads; cbn [mapM].
  - by intros [= <-].
  - destruct (at_index bones (Z.of_nat i)) as [m| |]; cbn [mbind outcome_bind];
      [| done | done].
    destruct (mapM _ rest) as [ups| |]; cbn [mbind outcome_bind];
      [| done | done].
    intros [= <-]. cbn. f_equal. by apply IH.
Qed.

Lemma computeBoneMatrices_skins (fuel : nat) (r r' : GLBRenderer)
    (skinIndex : Z) :
  computeBoneMatrices fuel r skinIndex = Done r' → Skins r' = Skins r.
Proof.
  unfold computeBoneMatrices. destruct (_ || _); [by intros [= <-] |].
  destruct (at_index (Skins r) skinIndex) as [skin| |];
    cbn [mbind outcome_bind]; [| done | done].
  destruct (boneLoop _ _ _ _ _ _); cbn [mbind outcome_bind]; [| done | done].
  by intros [= <-].
Qed.

(** After LoadGLB the current transforms are the base transforms, one per
    node of the document, and the table of parents has one entry per
    node; UpdateAnimation keeps the lengths. *)
Lemma LoadGLB_transforms (r : GLBRenderer) (doc : Document) (r' : GLBRenderer)
    (err : option error) :
  LoadGLB r (Some doc) = Done (r', err) →
  NodeTransforms r' = BaseTransforms r'
  ∧ length (NodeTransforms r') = length (Nodes doc)
  ∧ length (NodeParents r') = length (Nodes doc).
Proof.
  unfold LoadGLB, buildNodeParents.
  destruct (buildParentsFrom 0 (Nodes doc) _) as [parents| |] eqn:Hparents;
    cbn [mbind outcome_bind]; [| done | done].
  apply buildParentsFrom_length in Hparents.
  rewrite length_replicate in Hparents.
  destruct (mapM (loadSkin doc) (dSkins doc)); cbn [mbind outcome_bind];
    [| done | done].
  destruct (loadMeshesFrom doc 0 (Nodes doc) (Meshes r)) as [[meshes [e|]]| |];
    cbn [mbind outcome_bind]; [| | done | done].
  - intros [= <- <-]. cbn. by rewrite length_fmap.
  - destruct (length meshes =? 0)%nat.
    + intros [= <- <-]. cbn. by rewrite length_fmap.
    + destruct (foldM (loadAnimation doc) (Animations r) (dAnimations doc));
        cbn [mbind outcome_bind]; [| done | done].
      intros [= <- <-]. cbn. by rewrite length_fmap.
Qed.

(** The uploads of Render for a skinned mesh: the upload number [k] is
    the bone matrix of index [start + k]. *)
Lemma uploads_lookup (bones : list Mat4) :
  ∀ (n start : nat) (uploads : list GLCall),
    mapM (λ i, m ← at_index bones (Z.of_nat i); Done (UniformBoneMatrix i m))
      (seq start n) = Done uploads →
    ∀ k i m, boneUploads uploads !! k = Some (i, m)
             ↔ i = (start + k)%nat ∧ (k < n)%nat ∧ bones !! i = Some m.
Proof.
  induction n as [|n IH]; intros start uploads; cbn [seq mapM].
  - intros [= <-] k i m. cbn. rewrite lookup_nil. split; [done | lia].
  - destruct (at_index bones (Z.of_nat start)) as [m0| |] eqn:Hat;
      cbn [mbind outcome_bind]; [| done | done].
    assert (bones !! start = Some m0) as Hm0.
    { unfold at_index in Hat.
      destruct (Z.ltb_spec (Z.of_nat start) 0); [done |].
      rewrite Nat2Z.id in Hat.
      destruct (bones !! start); [by injection Hat as -> | done]. }
    destruct (mapM _ (seq (S start) n)) as [ups| |] eqn:Hrest;
      cbn [mbind outcome_bind]; [| done | done].
    intros [= <-] k i m.
    change (boneUploads (UniformBoneMatrix start m0 :: ups))
      with ((start, m0) :: boneUploads ups).
    destruct k as [|k]; cbn [lookup list_lookup].
    + rewrite Nat.add_0_r. split.
      * intros [= <- <-]. split; [done |]. split; [lia | done].
      * intros (-> & _ & Hm). congruence.
    + rewrite (IH _ _ Hrest k i m).
      replace (S start + k)%nat with (start + S k)%nat by lia.
      split; intros (? & ? & ?); (split; [done |]); (split; [lia | done]).
Qed.

Lemma uploads_return (bones : list Mat4) :
  ∀ (n start : nat), (start + n ≤ length bones)%nat →
    ∃ uploads,
      mapM (λ i, m ← at_index bones (Z.of_nat i); Done (UniformBoneMatrix i m))
        (seq start n) = Done uploads.
Proof.
  induction n as [|n IH]; intros start Hlen; cbn [seq mapM]; [by eexists |].
  destruct (lookup_lt_is_Some_2 bones start) as [m0 Hm0]; [lia |].
  rewrite (at_index_lookup _ _ m0); [| lia | by rewrite Nat2Z.id].
  cbn [mbind outcome_bind].
  destruct (IH (S start)) as [ups ->]; [lia |]. by eexists.
Qed.

(** computeBoneMatrices on a skin with a matrix per joint and joints whose
    global transforms are returned. *)
Lemma computeBoneMatrices_returns (fuel : nat) (r : GLBRenderer)
    (skinIndex : Z) (skin : Skin) :
  0 ≤ skinIndex →
  Skins r !! Z.to_nat skinIndex = Some skin →
  length (InverseBindMatrices skin) = length (Joints skin) →
  (∀ j, j ∈ Joints skin → ∃ g, getGlobalNodeTransform fuel r j = Done g) →
  ∃ bones,
    computeBoneMatrices fuel r skinIndex = Done (set_BoneMatrices r bones)
    ∧ (length (Joints skin) ≤ length bones)%nat
    ∧ ∀ i j g ibm,
        Joints skin !! i = Some j →
        getGlobalNodeTransform fuel r j = Done g →
        InverseBindMatrices skin !! i = Some ibm →
        bones !! i = Some (Mul4 g ibm).
Proof.
  intros Hpos Hskin Hibm Hglobal. unfold computeBoneMatrices.
  destruct (Z.ltb_spec skinIndex 0); [lia |].
  destruct (Z.leb_spec (len (Skins r)) skinIndex) as [Hge|_].
  { apply lookup_lt_Some in Hskin. unfold len in Hge. lia. }
  cbn [orb]. rewrite (at_index_lookup _ _ skin) by done.
  cbn [mbind outcome_bind].
  set (bones0 := if (length (BoneMatrices r) <? length (Joints skin))%nat
                 then replicate (length (Joints skin)) zeroMat4
                 else BoneMatrices r).
  assert (length (Joints skin) ≤ length bones0)%nat as Hlen.
  { unfold bones0. destruct (Nat.ltb_spec (length (BoneMatrices r))
                               (length (Joints skin)));
      [by rewrite length_replicate | done]. }
  destruct (boneLoop_spec fuel r skin (Joints skin) 0 bones0)
    as (bones & Hrun & Hsame & _ & Hset); [done | |].
  { intros k j Hk.
    destruct (Hglobal j) as [g Hg]; [by eapply list_elem_of_lookup_2 |].
    destruct (lookup_lt_is_Some_2 (InverseBindMatrices skin) k) as [ibm ?].
    { rewrite Hibm. by eapply lookup_lt_Some. }
    by exists g, ibm. }
  exists bones. rewrite Hrun. split; [done |]. split; [lia |].
  intros i j g ibm Hj Hg Hi. by apply (Hset i j g ibm).
Qed.

(** C3, as the code has it. Loading has no capacity check: a skin is
    stored with the joint list of the document whatever its length, the
    only errors LoadGLB returns are the failed open, a primitive that does
    not load and a document without meshes, and after a load the stored
    joint lists are those of the document. Drawing a mesh with a skin
    computes the bone matrices of all its joints and uploads those of the
    first 128 joints and no others: the upload number [i] is
    [BoneMatrices[i]] as computeBoneMatrices left it. For a skin with a
    matrix per joint whose joints have global transforms the draw returns,
    and the upload number [i] is the global transform of joint [i] times
    its inverse-bind matrix. *)
Theorem long_skins_load_whole_and_draw_128 :
  (∀ doc skin s, loadSkin doc skin = Done s → Joints s = sJoints skin)
  ∧ (∀ r opened r' e, LoadGLB r opened = Done (r', Some e) →
       e = ErrOpen ∨ e = ErrLoadPrimitive ∨ e = ErrNoMeshes)
  ∧ (∀ r doc r' err, LoadGLB r (Some doc) = Done (r', err) →
       Joints <$> Skins r' = (Joints <$> Skins r) ++ (sJoints <$> dSkins doc))
  ∧ (∀ fuel r mesh skin r' calls,
       0 ≤ SkinIndex mesh →
       Skins r !! Z.to_nat (SkinIndex mesh) = Some skin →
       renderMesh fuel r mesh = Done (r', calls) →
       computeBoneMatrices fuel r (SkinIndex mesh) = Done r'
       ∧ (boneUploads calls).*1
         = seq 0 (Nat.min 128 (length (Joints skin)))
       ∧ ∀ k i m, boneUploads calls !! k = Some (i, m)
                  ↔ i = k ∧ (k < 128)%nat ∧ (k < length (Joints skin))%nat
                    ∧ BoneMatrices r' !! i = Some m)
  ∧ (∀ fuel r mesh skin,
       0 ≤ SkinIndex mesh →
       Skins r !! Z.to_nat (SkinIndex mesh) = Some skin →
       length (InverseBindMatrices skin) = length (Joints skin) →
       (∀ j, j ∈ Joints skin → ∃ g, getGlobalNodeTransform fuel r j = Done g) →
       ∃ r' calls,
         renderMesh fuel r mesh = Done (r', calls)
         ∧ length (boneUploads calls) = Nat.min 128 (length (Joints skin))
         ∧ ∀ i j g ibm,
             (i < 128)%nat →
             Joints skin !! i = Some j →
             getGlobalNodeTransform fuel r j = Done g →
             InverseBindMatrices skin !! i = Some ibm →
             boneUploads calls !! i = Some (i, Mul4 g ibm)).
Proof.
  assert (∀ skin : Skin,
            (if (128 <? length (Joints skin))%nat then 128%nat
             else length (Joints skin))
            = Nat.min 128 (length (Joints skin))) as Hmin.
  { intros skin. destruct (Nat.ltb_spec 128 (length (Joints skin))); lia. }
  assert (∀ (mesh : Mesh) (uploads : list GLCall),
            boneUploads
              (uploads ++ [if HasIndices mesh then DrawElements (IndexCount mesh)
                           else DrawArrays (VertexCount mesh)])
            = boneUploads uploads) as Hdraw.
  { intros mesh uploads. unfold boneUploads. rewrite omap_app.
    destruct (HasIndices mesh); cbn; by rewrite app_nil_r. }
  split; [| split; [| split; [| split]]].
  - apply loadSkin_joints.
  - intros r [doc|] r' e Hload.
    + destruct (LoadGLB_opened _ _ _ _ Hload) as [Herr _].
      right. by apply Herr.
    + left. by injection Hload as _ <-.
  - intros r doc r' err Hload. by destruct (LoadGLB_opened _ _ _ _ Hload).
  - intros fuel r mesh skin r' calls Hpos Hskin. unfold renderMesh.
    destruct (Z.leb_spec 0 (SkinIndex mesh)); [| lia].
    destruct (Z.ltb_spec (SkinIndex mesh) (len (Skins r))) as [_|Hge].
    2:{ apply lookup_lt_Some in Hskin. unfold len in Hge. lia. }
    cbn [andb].
    destruct (computeBoneMatrices fuel r (SkinIndex mesh)) as [r1| |] eqn:Hbones;
      cbn [mbind outcome_bind]; [| done | done].
    rewrite (computeBoneMatrices_skins _ _ _ _ Hbones).
    rewrite (at_index_lookup _ _ skin) by done. cbn [mbind outcome_bind].
    rewrite Hmin.
    destruct (mapM _ _) as [uploads| |] eqn:Hup; cbn [mbind outcome_bind];
      [| done | done].
    intros [= <- <-]. split; [done |]. rewrite Hdraw. split.
    + by apply boneUploads_of_mapM in Hup.
    + intros k i m. rewrite (uploads_lookup _ _ _ _ Hup k i m).
      cbn [Nat.add]. split.
      * intros (-> & Hk & Hm). split; [done |]. split; [lia |]. split; [lia | done].
      * intros (-> & ? & ? & Hm). split; [done |]. split; [lia | done].
  - intros fuel r mesh skin Hpos Hskin Hibm Hglobal.
    destruct (computeBoneMatrices_returns fuel r _ skin Hpos Hskin Hibm Hglobal)
      as (bones & Hbones & Hlen & Hset).
    destruct (uploads_return bones (Nat.min 128 (length (Joints skin))) 0)
      as [uploads Hup]; [lia |].
    exists (set_BoneMatrices r bones). eexists. unfold renderMesh.
    destruct (Z.leb_spec 0 (SkinIndex mesh)); [| lia].
    destruct (Z.ltb_spec (SkinIndex mesh) (len (Skins r))) as [_|Hge].
    2:{ apply lookup_lt_Some in Hskin. unfold len in Hge. lia. }
    cbn [andb]. rewrite Hbones. cbn [mbind outcome_bind Skins set_BoneMatrices].
    rewrite (at_index_lookup _ _ skin) by done.
    cbn [mbind outcome_bind BoneMatrices set_BoneMatrices].
    rewrite Hmin, Hup.
    cbn [mbind outcome_bind]. split; [done |]. rewrite Hdraw.
    pose proof (boneUploads_of_mapM _ _ _ Hup) as Hidx. split.
    + by rewrite <- (length_fmap fst), Hidx, length_seq.
    + intros i j g ibm Hi Hj Hg Hm.
      apply (uploads_lookup _ _ _ _ Hup). cbn [Nat.add].
      split; [done |]. split; [| by eapply Hset].
      apply lookup_lt_Some in Hj. lia.
Qed.

End Loading.

(** ** The texture *)

Section Texture.
Context {F32 : Float32} {M32 : Mgl32} {MOD : Modeler}.

(** UpdateTexture never reads its [stride] argument. *)
Lemma UpdateTexture_any_stride (r : GLBRenderer) (buffer : list Byte.byte)
    (width height stride stride' : Z) :
  UpdateTexture r buffer width height stride
  = UpdateTexture r buffer width height stride'.
Proof. reflexivity. Qed.

End Texture.

(** ** The properties on the concrete scenes *)

Module Scenarios.
Import IntModel Scenes.

(** Run the model and give the renderer (and the calls) it returns as the
    witness of the goal. *)
Ltac exists_result :=
  lazymatch goal with
  | |- ∃ x, ?c = Done (x, _) ∧ _ =>
      let v := eval vm_compute in c in
      lazymatch v with Done (?a, _) => exists a end
  | |- ∃ x y, ?c = Done (x, y) ∧ _ =>
      let v := eval vm_compute in c in
      lazymatch v with Done (?a, ?b) => exists a, b end
  | |- ∃ x, ?c = Done x ∧ _ =>
      let v := eval vm_compute in c in
      lazymatch v with Done ?a => exists a end
  end.



(** C3 fails on the code: a document with a skin of 129 joints loads
    without an error and with all 129 joints; drawing computes 129 bone
    matrices, each the transform of the moved node, and uploads the first
    128 of them: the last upload is the matrix of index 127, and the
    matrix of index 128 is computed and left out. *)
Lemma long_skin_loads_without_error :
  ∃ r, LoadGLB fresh (Some longSkinDoc) = Done (r, None)
     ∧ length <$> (Joints <$> Skins r) = [129%nat]
     ∧ ∃ r' calls, Render 3 r 0 = Done (r', calls)
                 ∧ length (boneUploads calls) = 128%nat
                 ∧ length (BoneMatrices r') = 129%nat
                 ∧ boneUploads calls !! 0%nat = Some (0%nat, Translate3D 3 0 0)
                 ∧ boneUploads calls !! 127%nat
                   = Some (127%nat, Translate3D 3 0 0)
                 ∧ boneUploads calls !! 128%nat = None
                 ∧ BoneMatrices r' !! 128%nat = Some (Translate3D 3 0 0)
                 ∧ Translate3D 3 0 0 ≠ Ident4.
Proof.
  exists_result. split; [reflexivity |]. split; [reflexivity |].
  exists_result. by repeat split.
Qed.


(** C5, on the code. For a buffer of two rows of two pixels with a stride
    of 12 bytes, UpdateTexture hands the buffer to [TexSubImage2D] as it
    does for a stride of 8; OpenGL then reads the first texel of the second
    row at byte 8, the padding of the first row, and not at byte 12. *)
Theorem padded_rows_are_read_packed :
  (UpdateTexture rig paddedBuffer 2 2 12).2
  = [BindTexture 1; TexImage2D 2 2; TexSubImage2D 2 2 paddedBuffer]
  ∧ UpdateTexture rig paddedBuffer 2 2 12 = UpdateTexture rig paddedBuffer 2 2 8
  ∧ glTexel 2 paddedBuffer 0 1 = [x00; x00; x00; x00]%byte
  ∧ bufferTexel 12 paddedBuffer 0 1 = [x03; x03; x03; x03]%byte.
Proof. by repeat split. Qed.


(** C6 on the rig: node 1 is the child of the root 0, and its global
    transform is the local matrix of the root times its own. *)
Lemma global_transform_of_rig_child :
  parentChain rig 1 [0; 1]
  ∧ getGlobalNodeTransform 2 rig 1
    = Done (Mul4 (getNodeTransformMatrix rig 0) (getNodeTransformMatrix rig 1)).
Proof.
  assert (parentChain rig 1 [0; 1]) as Hchain.
  { apply (chain_child rig 1 0 [0]); [reflexivity | reflexivity | lia |].
    apply (chain_root rig 0 (-1)); [reflexivity | reflexivity | lia]. }
  split; [exact Hchain |].
  exact (proj1 (global_transform_is_chain_product rig 1 [0; 1] 1 Hchain eq_refl)
           2%nat (le_n 2)).
Defined.





(** The rig two seconds into [slide]: the update returns the base
    transforms with the channel of the clip applied, and the root, which
    the channel targets, is at the second keyframe (10,0,0). *)
Lemma slide_update_at_two_seconds :
  CurrentAnim playing = Some slide
  ∧ length (BaseTransforms playing) = length (NodeTransforms playing)
  ∧ ∃ nts,
      UpdateAnimation playing (2 * second)
      = Done (set_NodeTransforms playing nts)
      ∧ applyChannels 2 (Channels slide) (BaseTransforms playing) = Done nts
      ∧ (∀ n base, BaseTransforms playing !! n = Some base →
           ∃ cur, nts !! n = Some cur
                ∧ keepsUntargeted (Channels slide) n base cur)
      ∧ ∃ root, nts !! 0%nat = Some root ∧ Translation root = (10, 0, 0).
Proof.
  split; [reflexivity |]. split; [reflexivity |].
  destruct (update_resets_then_applies_channels playing (2 * second) slide 2)
    as (nts & Hrun & Happly & Hframe & _ & Hwrite);
    [reflexivity | reflexivity | reflexivity | |].
  { constructor; [unfold channelSliceable; cbn; lia | constructor]. }
  exists nts. do 3 (split; [done |]).
  destruct (Hwrite [] slideChannel [] 0%nat [10; 0; 0])
    as (root & Hroot & Htranslation & _);
    [reflexivity | reflexivity | exact (le_S 1 1 (le_n 1)) | | reflexivity |].
  { intros later Hin. by apply elem_of_nil in Hin. }
  exists root. split; [done |]. apply Htranslation; [reflexivity | cbn; lia].
Defined.


End Scenarios.

(** * Further properties of the code *)

(** ** Stopping, looping and what an update leaves alone *)

Section MorePlayback.
Context {F32 : Float32} {M32 : Mgl32} {MOD : Modeler}.

(** X1. StopAnimation (glb_renderer.go 580-586). With at least as many base
    as current transforms, StopAnimation returns a renderer without a
    current clip whose current transforms are the base transforms of the
    same indices and whose other fields, every one of them, are unchanged;
    on that renderer every later UpdateAnimation and StopAnimation changes
    nothing. *)
Theorem stop_resets_and_is_final (r : GLBRenderer) :
  (length (NodeTransforms r) ≤ length (BaseTransforms r))%nat →
  ∃ r',
    StopAnimation r = Done r'
    ∧ CurrentAnim r' = None
    ∧ NodeTransforms r'
      = take (length (NodeTransforms r)) (BaseTransforms r)
    ∧ BaseTransforms r' = BaseTransforms r
    ∧ Animations r' = Animations r
    ∧ Skins r' = Skins r
    ∧ NodeParents r' = NodeParents r
    ∧ BoneMatrices r' = BoneMatrices r
    ∧ Meshes r' = Meshes r
    ∧ AnimStartTime r' = AnimStartTime r
    ∧ AnimLoop r' = AnimLoop r
    ∧ TextureID r' = TextureID r
    ∧ TextureWidth r' = TextureWidth r
    ∧ TextureHeight r' = TextureHeight r
    ∧ Doc r' = Doc r
    ∧ (∀ now, UpdateAnimation r' now = Done r')
    ∧ StopAnimation r' = Done r'.
Proof.
  intros Hlen. unfold StopAnimation, resetToBase.
  cbn [NodeTransforms BaseTransforms set_CurrentAnim].
  destruct (decide _) as [_|]; [| lia]. cbn [mbind outcome_bind].
  eexists. split; [done |]. do 15 (split; [done |]).
  cbn [NodeTransforms BaseTransforms set_CurrentAnim set_NodeTransforms].
  rewrite length_take, Nat.min_l by done.
  destruct (decide _) as [_|]; [| lia]. done.
Qed.

(** StopAnimation with fewer base than current transforms reads past the
    end of [BaseTransforms]. *)
Lemma stop_panics_without_base (r : GLBRenderer) :
  (length (BaseTransforms r) < length (NodeTransforms r))%nat →
  StopAnimation r = Panic.
Proof.
  intros Hlen. unfold StopAnimation, resetToBase.
  cbn [NodeTransforms BaseTransforms set_CurrentAnim].
  by destruct (decide _); [lia |].
Qed.

(** X2. UpdateAnimation (589-603). A looping clip with a positive duration is
    never ended: the update keeps it as the current clip and applies its
    channels to the base transforms at the elapsed time reduced modulo the
    duration. *)
Theorem looping_clip_is_never_ended (r : GLBRenderer) (now : Z)
    (anim : Animation) :
  CurrentAnim r = Some anim →
  AnimLoop r = true →
  fltb f0 (Duration anim) = true →
  length (BaseTransforms r) = length (NodeTransforms r) →
  Forall channelSliceable (Channels anim) →
  ∃ nts r',
    UpdateAnimation r now = Done r'
    ∧ r' = set_NodeTransforms r nts
    ∧ CurrentAnim r' = Some anim
    ∧ applyChannels
        (fmod (seconds32 (now - AnimStartTime r)) (Duration anim))
        (Channels anim) (BaseTransforms r) = Done nts.
Proof.
  intros Hanim Hloop Hpos Hlen Hok.
  destruct (applyChannels_returns
              (fmod (seconds32 (now - AnimStartTime r)) (Duration anim))
              _ Hok (BaseTransforms r)) as (nts & Hrun & _).
  exists nts, (set_NodeTransforms r nts).
  unfold UpdateAnimation, effectiveElapsed. rewrite Hanim, Hloop, Hpos.
  cbn [andb]. rewrite resetToBase_same_length by done.
  cbn [mbind outcome_bind]. rewrite Hrun. by repeat split.
Qed.

(** X3. UpdateAnimation (597-603). The loop flag only counts for a positive
    duration: a clip whose duration is not positive is ended, looping or
    not, by the first update whose elapsed time is past the duration, and
    that update changes nothing but the current clip. *)
Theorem clip_without_duration_ends_even_looping (r : GLBRenderer) (now : Z)
    (anim : Animation) :
  CurrentAnim r = Some anim →
  fltb f0 (Duration anim) = false →
  fltb (Duration anim) (seconds32 (now - AnimStartTime r)) = true →
  UpdateAnimation r now = Done (set_CurrentAnim r None).
Proof.
  intros Hanim Hzero Hpast. unfold UpdateAnimation, effectiveElapsed.
  rewrite Hanim, Hzero, Hpast. by rewrite andb_false_r.
Qed.

(** X4. UpdateAnimation (589-637). Whatever the update does, it changes only
    the current transforms and the current clip: the base transforms, the
    clips, the skins, the parents, the bone matrices, the meshes, the start
    time and the loop flag stay, the number of current transforms stays,
    and the current clip stays or is cleared. *)
Theorem update_touches_only_pose_and_clip (r r' : GLBRenderer) (now : Z) :
  UpdateAnimation r now = Done r' →
  BaseTransforms r' = BaseTransforms r
  ∧ Animations r' = Animations r
  ∧ Skins r' = Skins r
  ∧ NodeParents r' = NodeParents r
  ∧ BoneMatrices r' = BoneMatrices r
  ∧ Meshes r' = Meshes r
  ∧ AnimStartTime r' = AnimStartTime r
  ∧ AnimLoop r' = AnimLoop r
  ∧ length (NodeTransforms r') = length (NodeTransforms r)
  ∧ (CurrentAnim r' = CurrentAnim r ∨ CurrentAnim r' = None).
Proof.
  unfold UpdateAnimation.
  destruct (CurrentAnim r) as [anim|] eqn:Hanim.
  2:{ intros [= <-]. rewrite Hanim. by repeat split; [left]. }
  destruct (effectiveElapsed _ _ _) as [elapsed|].
  2:{ intros [= <-]. by repeat split; [right]. }
  unfold resetToBase. destruct (decide _) as [Hlen|]; [| done].
  cbn [mbind outcome_bind].
  destruct (applyChannels _ _ _) as [nts| |] eqn:Hrun;
    cbn [mbind outcome_bind]; [| done | done].
  intros [= <-]. apply applyChannels_length in Hrun.
  rewrite length_take, Nat.min_l in Hrun by done.
  cbn. repeat split; [done | by left].
Qed.

End MorePlayback.

(** ** The texture upload *)

Section MoreTexture.
Context {F32 : Float32} {M32 : Mgl32} {MOD : Modeler}.

(** X5. UpdateTexture (542-558). An empty buffer makes no call and changes
    nothing. A non-empty buffer is uploaded with one [TexSubImage2D] after
    binding the texture; the texture is reallocated ([TexImage2D]) exactly
    when the given size differs from the recorded one, and the recorded
    size is the given one afterwards, so an update of the same size that
    follows makes the two calls bind and upload only. *)
Theorem texture_is_reallocated_only_on_resize (r : GLBRenderer)
    (buffer : list Byte.byte) (width height stride : Z) :
  UpdateTexture r [] width height stride = (r, [])
  ∧ (buffer ≠ [] →
     ∃ r' calls,
       UpdateTexture r buffer width height stride = (r', calls)
       ∧ TextureWidth r' = width ∧ TextureHeight r' = height
       ∧ head calls = Some (BindTexture (TextureID r))
       ∧ last calls = Some (TexSubImage2D width height buffer)
       ∧ (TexImage2D width height ∈ calls
          ↔ TextureWidth r ≠ width ∨ TextureHeight r ≠ height)
       ∧ ∀ buffer' stride', buffer' ≠ [] →
           UpdateTexture r' buffer' width height stride'
           = (r', [BindTexture (TextureID r);
                   TexSubImage2D width height buffer'])).
Proof.
  split; [done |]. intros Hne. unfold UpdateTexture.
  destruct buffer as [|b buffer]; [done |]. cbn [length Nat.eqb].
  destruct (Z.eqb_spec (TextureWidth r) width) as [Hw|Hw];
    destruct (Z.eqb_spec (TextureHeight r) height) as [Hh|Hh];
    cbn [negb orb]; eexists _, _; (split; [done |]);
    cbn [TextureWidth TextureHeight TextureID set_TextureSize app];
    do 4 (split; [done |]); split.
  all: try (intros [|b' buffer'] stride' Hne'; [done |];
            cbn [length Nat.eqb]; rewrite ?Hw, ?Hh, !Z.eqb_refl; done).
  all: rewrite !elem_of_cons, elem_of_nil; split.
  all: try (intros _; by right; left).
  all: try (intros [?|?]; done).
  all: intros Hin; repeat (destruct Hin as [Hin|Hin]; try done);
    first [by left | by right].
Qed.

End MoreTexture.

(** ** More on keyframes *)

Section MoreInterpolation.
Context {F32 : Float32} {M32 : Mgl32} {MOD : Modeler}.

Lemma blend_spec_length (channel : AnimationChannel) (k0 k1 : list float32)
    (factor : float32) :
  length k0 = components_of channel →
  length k1 = components_of channel →
  length (blend_spec channel k0 k1 factor) = components_of channel.
Proof.
  unfold blend_spec, components_of, listOfQuat.
  fold (is_rotation channel). intros Hk0 Hk1.
  destruct (is_rotation channel).
  - by destruct (V (QuatSlerp _ _ _)) as [[??]?].
  - rewrite length_zip_with. lia.
Qed.

(** X6. interpolateKeyframes (640-723). For a channel with a timestamp and
    one block of values per timestamp, whatever the order of the
    timestamps and whatever the sample time, interpolateKeyframes returns,
    and it returns as many values as the property has components: 4 for a
    rotation, 3 otherwise. *)
Theorem interpolation_yields_one_value_block (channel : AnimationChannel)
    (t : float32) :
  Timestamps channel ≠ [] →
  channelComplete channel →
  ∃ value, interpolateKeyframes channel t = Done value
         ∧ length value = components_of channel.
Proof.
  intros Hne Hcomplete.
  pose proof (searchIndex_le channel t) as Hle.
  rewrite (interpolate_by_index channel t Hne Hcomplete Hle).
  pose proof (components_pos channel) as Hc.
  unfold channelComplete in Hcomplete.
  assert (0 < length (Timestamps channel))%nat as Hcount
    by (destruct (Timestamps channel); [done | cbn; lia]).
  set (idx := searchIndex channel t) in *. clearbody idx.
  destruct (Nat.eqb_spec idx 0).
  { eexists. split; [done |]. apply keyframe_length. nia. }
  destruct (Nat.eqb_spec idx (length (Timestamps channel))).
  { eexists. split; [done |]. apply keyframe_length. nia. }
  eexists. split; [done |].
  apply blend_spec_length; apply keyframe_length; nia.
Qed.

(** X7. interpolateKeyframes (640-674). A channel with a single keyframe is
    constant: at every sample time the result is its block of values. *)
Theorem single_keyframe_is_constant (channel : AnimationChannel)
    (t : float32) :
  length (Timestamps channel) = 1%nat →
  channelComplete channel →
  interpolateKeyframes channel t = Done (Values channel).
Proof.
  intros Hone Hcomplete.
  assert (Timestamps channel ≠ []) as Hne
    by (by destruct (Timestamps channel)).
  pose proof (searchIndex_le channel t) as Hle.
  rewrite (interpolate_by_index channel t Hne Hcomplete Hle).
  unfold channelComplete in Hcomplete. rewrite Hone in *.
  assert (keyframe channel 0 = Values channel) as Hkey.
  { unfold keyframe. cbn [Nat.mul drop]. apply take_ge. lia. }
  destruct (searchIndex channel t) as [|[|idx]]; [| | lia];
    cbn [Nat.eqb Nat.sub]; by rewrite Hkey.
Qed.



(** X10. UpdateAnimation (610-636). When two channels of a clip write the same
    property of the same node and the later one yields a whole block of
    values, the later channel alone decides the result: the write of the
    earlier one is lost. *)
Theorem later_channel_overwrites (elapsed : float32)
    (nts nts1 nts2 : list NodeTransform) (first later : AnimationChannel)
    (value : list float32) :
  NodeIndex first = NodeIndex later →
  Path first = Path later →
  applyChannel elapsed nts first = Done nts1 →
  interpolateKeyframes later elapsed = Done value →
  (components_of later ≤ length value)%nat →
  applyChannel elapsed nts1 later = Done nts2 →
  applyChannel elapsed nts later = Done nts2.
Proof.
  intros Hnode Hpath Hfirst Hvalue Hlen Hlater.
  pose proof (applyChannel_length _ _ _ _ Hfirst) as Hl1.
  revert Hfirst Hlater. unfold applyChannel, len.
  rewrite Hl1, Hnode, Hvalue.
  destruct (_ || _); [by intros [= <-] |].
  destruct (interpolateKeyframes first elapsed) as [v1| |];
    cbn [mbind outcome_bind]; [| done | done].
  intros [= <-] [= <-]. f_equal.
  rewrite list_alter_alter_eq. apply list_alter_ext; [| done].
  intros t _. rewrite Hpath. revert Hlen.
  unfold compose, writeProperty, components_of, is_rotation.
  destruct (String.eqb_spec (Path later) "translation") as [Heq|];
    [rewrite Heq
    | destruct (String.eqb (Path later) "rotation");
      [| destruct (String.eqb (Path later) "scale")]];
    cbn [String.eqb Ascii.eqb Bool.eqb]; intros Hlen;
    repeat match goal with
      | |- context [(?a <=? ?b)%nat] => destruct (Nat.leb_spec a b)
      end; try lia; done.
Qed.

End MoreInterpolation.

(** ** Little-endian words *)

Section Words.

Lemma Z_of_byte_of_Z (v : Z) : Z_of_byte (byte_of_Z v) = v mod 256.
Proof.
  unfold Z_of_byte, byte_of_Z.
  assert (0 ≤ v mod 256 < 256) as Hr by (apply Z.mod_pos_bound; lia).
  destruct (Byte.of_N (Z.to_N (v mod 256))) as [b|] eqn:Hb.
  - apply Byte.to_of_N in Hb.
    change (Z.of_N (Byte.to_N b) = v mod 256). rewrite Hb. lia.
  - pose proof (Byte.to_of_N_option_map (Z.to_N (v mod 256))) as Hm.
    rewrite Hb in Hm. cbn in Hm.
    destruct (N.leb_spec (Z.to_N (v mod 256)) 255); [done | lia].
Qed.

Lemma Z_of_byte_range (b : Byte.byte) : 0 ≤ Z_of_byte b < 256.
Proof. unfold Z_of_byte. pose proof (Byte.to_N_bounded b). lia. Qed.

(** The four bytes of a word, least significant first, give the word
    back. *)
Lemma word_of_bytes (w : Z) :
  0 ≤ w < 2 ^ 32 →
  Z.lor (Z.lor (Z.lor (w mod 256) (Z.shiftl (Z.shiftr w 8 mod 256) 8))
               (Z.shiftl (Z.shiftr w 16 mod 256) 16))
        (Z.shiftl (Z.shiftr w 24 mod 256) 24)
  = w.
Proof.
  intros Hw. apply Z.bits_inj'. intros n Hn.
  rewrite !Z.lor_spec, !Z.shiftl_spec by done.
  change 256 with (2 ^ 8). rewrite !Z.testbit_mod_pow2 by lia.
  assert (Z.testbit w n = true → n < 32) as Hhigh.
  { intros Hbit. destruct (Z.ltb_spec n 32) as [|Hge]; [done |].
    destruct (Z.eq_dec w 0) as [->|]; [by rewrite Z.bits_0 in Hbit |].
    rewrite Z.bits_above_log2 in Hbit; [done | lia |].
    apply Z.lt_le_trans with 32; [| done]. apply Z.log2_lt_pow2; lia. }
  destruct (Z.ltb_spec n 8), (Z.ltb_spec (n - 8) 8), (Z.ltb_spec (n - 16) 8),
    (Z.ltb_spec (n - 24) 8); try lia;
    repeat match goal with
      | |- context [Z.testbit (Z.shiftr ?a ?k) ?m] =>
          first [ rewrite (Z.shiftr_spec a k m) by lia;
                  replace (m + k) with n by lia
                | rewrite (Z.testbit_neg_r (Z.shiftr a k) m) by lia ]
      end;
    destruct (Z.testbit w n) eqn:Hbit; try reflexivity;
    specialize (Hhigh eq_refl); lia.
Qed.

Lemma Uint32_PutUint32 (v : Z) (rest : list Byte.byte) :
  0 ≤ v < 2 ^ 32 → Uint32 (PutUint32 v ++ rest) = Done v.
Proof.
  intros Hv. unfold Uint32, PutUint32. cbn [app]. f_equal.
  rewrite !Z_of_byte_of_Z. by apply word_of_bytes.
Qed.

End Words.

(** ** Reading accessors *)

Section Accessors.
Context {F32 : Float32} {M32 : Mgl32} {MOD : Modeler}.

Lemma byteZ_Z_of_byte (data : list Byte.byte) (i : nat) (b : Byte.byte) :
  data !! i = Some b → byteZ data i = Z_of_byte b.
Proof. unfold byteZ. by intros ->. Qed.

(** The decoding loop of readAccessorFloats on the bytes written by
    PutUint32. *)
Lemma decode_words (ws : list Z) (rest : list Byte.byte) :
  Forall (λ w, 0 ≤ w < 2 ^ 32) ws →
  (λ i : nat,
     let offset := (i * 4)%nat in
     if (offset + 4 <=? length (concat (PutUint32 <$> ws) ++ rest))%nat then
       float32frombits
         (Z.lor (Z.lor (Z.lor
            (byteZ (concat (PutUint32 <$> ws) ++ rest) offset)
            (Z.shiftl (byteZ (concat (PutUint32 <$> ws) ++ rest) (offset + 1)) 8))
            (Z.shiftl (byteZ (concat (PutUint32 <$> ws) ++ rest) (offset + 2)) 16))
            (Z.shiftl (byteZ (concat (PutUint32 <$> ws) ++ rest) (offset + 3)) 24))
     else f0) <$> seq 0 (length ws)
  = float32frombits <$> ws.
Proof.
  induction 1 as [|w ws Hw Hws IH]; [done |].
  cbn [length seq]. rewrite <- fmap_S_seq, !fmap_cons, <- list_fmap_compose.
  rewrite <- IH. cbn [concat]. rewrite <- (assoc_L (++)).
  generalize (concat (PutUint32 <$> ws) ++ rest). intros data.
  unfold PutUint32. cbn [app length Nat.mul Nat.add Nat.leb].
  do 2 f_equal. unfold byteZ. cbn [lookup list_lookup].
  change (Z.of_N (Byte.to_N ?b)) with (Z_of_byte b).
  rewrite !Z_of_byte_of_Z. by apply word_of_bytes.
Qed.

Lemma at_index_Done {A} (l : list A) (i : Z) (x : A) :
  at_index l i = Done x → 0 ≤ i ∧ l !! Z.to_nat i = Some x.
Proof.
  unfold at_index. destruct (Z.ltb_spec i 0); [done |].
  destruct (l !! Z.to_nat i); [| done]. by intros [= ->].
Qed.

(** The only error readAccessorFloats returns is the one for the index of
    the accessor. *)
Lemma readAccessorFloats_error (doc : Document) (i : Z) :
  readAccessorFloats doc i = Done None ↔ i < 0 ∨ len (Accessors doc) ≤ i.
Proof.
  unfold readAccessorFloats.
  destruct (Z.ltb_spec i 0); [by split; [left |] |].
  destruct (Z.leb_spec (len (Accessors doc)) i); cbn [orb];
    [by split; [right |] |].
  split; [| lia].
  destruct (at_index _ _) as [accessor| |]; cbn [mbind outcome_bind];
    [| done | done].
  destruct (match aBufferView accessor with
            | Some bv => at_index (BufferViews doc) bv
            | None => Panic
            end) as [view| |]; cbn [mbind outcome_bind]; [| done | done].
  destruct (at_index (Buffers doc) _) as [buffer| |]; cbn [mbind outcome_bind];
    [| done | done].
  destruct (_ || _); [done |]. by destruct (_ <? 0).
Qed.

(** X11. readAccessorFloats (740-780). A returned list has the number of floats
    the accessor declares, [Count] times the components of its type,
    whatever the buffer holds: where fewer than four bytes are left for a
    float, the float is 0 and no error is reported. *)
Theorem short_accessor_data_reads_as_zeros (doc : Document) (i : Z)
    (floats : list float32) :
  readAccessorFloats doc i = Done (Some floats) →
  ∃ accessor bv view buffer,
    Accessors doc !! Z.to_nat i = Some accessor
    ∧ aBufferView accessor = Some bv
    ∧ BufferViews doc !! Z.to_nat bv = Some view
    ∧ Buffers doc !! Z.to_nat (bvBuffer view) = Some buffer
    ∧ len floats = aCount accessor * elemCount (aType accessor)
    ∧ ∀ k, (k < length floats)%nat →
        len (Data buffer)
        < bvByteOffset view + aByteOffset accessor + 4 * Z.of_nat k + 4 →
        floats !! k = Some f0.
Proof.
  unfold readAccessorFloats. destruct (_ || _); [done |].
  destruct (at_index _ _) as [accessor| |] eqn:Hacc; cbn [mbind outcome_bind];
    [| done | done].
  apply at_index_Done in Hacc as [_ Hacc].
  destruct (aBufferView accessor) as [bv|] eqn:Hbv; [| done].
  destruct (at_index (BufferViews doc) bv) as [view| |] eqn:Hview;
    cbn [mbind outcome_bind]; [| done | done].
  apply at_index_Done in Hview as [_ Hview].
  destruct (at_index (Buffers doc) _) as [buffer| |] eqn:Hbuf;
    cbn [mbind outcome_bind]; [| done | done].
  apply at_index_Done in Hbuf as [_ Hbuf].
  set (start := bvByteOffset view + aByteOffset accessor).
  destruct (Z.ltb_spec start 0); [done |].
  destruct (Z.ltb_spec (len (Data buffer)) start) as [|Hstart]; [done |].
  cbn [orb].
  set (total := aCount accessor * elemCount (aType accessor)).
  destruct (Z.ltb_spec total 0); [done |].
  intros [= <-]. exists accessor, bv, view, buffer.
  do 4 (split; [done |]). unfold len in *.
  rewrite length_fmap, length_seq. split; [lia |].
  intros k Hk Hshort. rewrite list_lookup_fmap, lookup_seq_lt by done.
  cbn [fmap option_fmap option_map Nat.add]. rewrite length_drop.
  by destruct (Nat.leb_spec (k * 4 + 4)
                 (length (Data buffer) - Z.to_nat start)); [lia |].
Qed.

(** X12. readAccessorFloats (740-780) after PutUint32. For an accessor whose
    bytes in the buffer are little-endian 32-bit words, as many as the
    accessor declares floats, the result is the list of the floats of those
    bit patterns, in order. *)
Theorem accessor_reads_little_endian_words (doc : Document) (i bv : Z)
    (accessor : Accessor) (view : BufferView) (buffer : Buffer)
    (before rest : list Byte.byte) (ws : list Z) :
  0 ≤ i → Accessors doc !! Z.to_nat i = Some accessor →
  aBufferView accessor = Some bv →
  0 ≤ bv → BufferViews doc !! Z.to_nat bv = Some view →
  0 ≤ bvBuffer view → Buffers doc !! Z.to_nat (bvBuffer view) = Some buffer →
  Data buffer = before ++ concat (PutUint32 <$> ws) ++ rest →
  len before = bvByteOffset view + aByteOffset accessor →
  Forall (λ w, 0 ≤ w < 2 ^ 32) ws →
  aCount accessor * elemCount (aType accessor) = len ws →
  readAccessorFloats doc i = Done (Some (float32frombits <$> ws)).
Proof.
  intros Hi Hacc Hbv Hbvpos Hview Hbufpos Hbuf Hdata Hstart Hws Hcount.
  unfold readAccessorFloats.
  destruct (Z.ltb_spec i 0); [lia |].
  destruct (Z.leb_spec (len (Accessors doc)) i) as [Hge|_].
  { apply lookup_lt_Some in Hacc. unfold len in Hge. lia. }
  cbn [orb]. rewrite (at_index_lookup _ _ _ Hi Hacc).
  cbn [mbind outcome_bind]. rewrite Hbv, (at_index_lookup _ _ _ Hbvpos Hview).
  cbn [mbind outcome_bind]. rewrite (at_index_lookup _ _ _ Hbufpos Hbuf).
  cbn [mbind outcome_bind]. rewrite <- Hstart, Hcount, Hdata. unfold len.
  destruct (Z.ltb_spec (Z.of_nat (length before)) 0); [lia |].
  destruct (Z.ltb_spec (Z.of_nat (length (before ++ concat (PutUint32 <$> ws)
                                            ++ rest)))
              (Z.of_nat (length before))) as [Hlt|_].
  { rewrite length_app in Hlt. lia. }
  destruct (Z.ltb_spec (Z.of_nat (length ws)) 0); [lia |].
  cbn [orb]. rewrite !Nat2Z.id, drop_app_length.
  do 2 f_equal. by apply decode_words.
Qed.

(** ** Skins *)

Lemma boneLoop_frame (fuel : nat) (r : GLBRenderer) (skin : Skin) :
  ∀ (joints : list Z) (i : nat) (bones bones' : list Mat4),
    boneLoop fuel r skin i joints bones = Done bones' →
    length bones' = length bones
    ∧ ∀ k, (k < i ∨ i + length joints ≤ k)%nat → bones' !! k = bones !! k.
Proof.
  induction joints as [|joint rest IH]; intros i bones bones';
    cbn [boneLoop].
  - by intros [= <-].
  - destruct (getGlobalNodeTransform fuel r joint) as [g| |];
      cbn [mbind outcome_bind]; [| done | done].
    destruct (at_index _ _) as [ibm| |]; cbn [mbind outcome_bind];
      [| done | done].
    destruct (decide _) as [Hi|]; [| done].
    intros [Hlen Hkeep]%IH. rewrite length_insert in Hlen.
    split; [done |]. intros k Hk. cbn [length] in Hk.
    rewrite Hkeep by lia. apply list_lookup_insert_ne. lia.
Qed.

(** X13. LoadGLB (267-296). A stored skin has the joints of the document. With
    no inverse-bind accessor it has an identity matrix per joint; with an
    accessor that is read it has a matrix per joint; with an accessor whose
    index names no accessor the error is dropped and the skin is stored
    without any matrix. *)
Theorem skin_has_a_matrix_per_joint_or_none (doc : Document)
    (gskin : GltfSkin) (skin : Skin) :
  loadSkin doc gskin = Done skin →
  Joints skin = sJoints gskin
  ∧ match sInverseBindMatrices gskin with
    | None =>
        InverseBindMatrices skin = replicate (length (sJoints gskin)) Ident4
    | Some acc =>
        if (acc <? 0) || (len (Accessors doc) <=? acc)
        then InverseBindMatrices skin = []
        else length (InverseBindMatrices skin) = length (sJoints gskin)
    end.
Proof.
  unfold loadSkin. destruct (sInverseBindMatrices gskin) as [acc|];
    [| by intros [= <-]].
  destruct (readAccessorFloats doc acc) as [[matrices|]| |] eqn:Hread;
    cbn [mbind outcome_bind]; [| | done | done]; intros [= <-];
    (split; [done |]); cbn [InverseBindMatrices].
  - destruct (_ || _) eqn:Hbad.
    + unfold readAccessorFloats in Hread. by rewrite Hbad in Hread.
    + unfold inverseBindFrom. by rewrite length_fmap, length_seq.
  - apply readAccessorFloats_error in Hread.
    by destruct (Z.ltb_spec acc 0), (Z.leb_spec (len (Accessors doc)) acc);
      try lia.
Qed.

(** X14. LoadGLB (275-286) and computeBoneMatrices (805-824). A skin with a
    joint whose inverse-bind accessor index names no accessor loads without
    an error; computing its bone matrices then reads
    [skin.InverseBindMatrices[0]] of an empty slice: whenever the global
    transform of the first joint is returned, computeBoneMatrices
    panics. *)
Theorem unreadable_inverse_bind_panics_at_draw (doc : Document)
    (gskin : GltfSkin) (acc j : Z) (rest : list Z) :
  sInverseBindMatrices gskin = Some acc →
  acc < 0 ∨ len (Accessors doc) ≤ acc →
  sJoints gskin = j :: rest →
  ∃ skin,
    loadSkin doc gskin = Done skin
    ∧ ∀ fuel r skinIndex g,
        0 ≤ skinIndex →
        Skins r !! Z.to_nat skinIndex = Some skin →
        getGlobalNodeTransform fuel r j = Done g →
        computeBoneMatrices fuel r skinIndex = Panic.
Proof.
  intros Hacc Hbad%readAccessorFloats_error Hjoints.
  exists (mkSkin (sJoints gskin) []). unfold loadSkin.
  rewrite Hacc, Hbad. split; [done |].
  intros fuel r skinIndex g Hpos Hskin Hg. unfold computeBoneMatrices.
  destruct (Z.ltb_spec skinIndex 0); [lia |].
  destruct (Z.leb_spec (len (Skins r)) skinIndex) as [Hge|_].
  { apply lookup_lt_Some in Hskin. unfold len in Hge. lia. }
  cbn [orb]. rewrite (at_index_lookup _ _ _ Hpos Hskin).
  cbn [mbind outcome_bind Joints InverseBindMatrices]. rewrite Hjoints.
  cbn [boneLoop]. by rewrite Hg.
Qed.

(** X15. computeBoneMatrices (805-824). A call that returns changes nothing but
    [BoneMatrices]; an index that names no skin changes nothing at all.
    The bone buffer never shrinks: it has the length it had or, if that
    was too short, the number of joints of the skin, and the entries from
    the number of joints on are those it held before the call, left over
    from the skin drawn before. *)
Theorem bone_buffer_keeps_entries_past_the_joints (fuel : nat)
    (r r' : GLBRenderer) (skinIndex : Z) :
  computeBoneMatrices fuel r skinIndex = Done r' →
  r' = set_BoneMatrices r (BoneMatrices r')
  ∧ (skinIndex < 0 ∨ len (Skins r) ≤ skinIndex → r' = r)
  ∧ ∀ skin, 0 ≤ skinIndex → Skins r !! Z.to_nat skinIndex = Some skin →
      length (BoneMatrices r')
      = Nat.max (length (BoneMatrices r)) (length (Joints skin))
      ∧ ∀ k, (length (Joints skin) ≤ k < length (BoneMatrices r))%nat →
          BoneMatrices r' !! k = BoneMatrices r !! k.
Proof.
  unfold computeBoneMatrices.
  destruct (Z.ltb_spec skinIndex 0) as [Hneg|Hpos].
  { intros [= <-]. split; [by destruct r |]. split; [done | lia]. }
  destruct (Z.leb_spec (len (Skins r)) skinIndex) as [Hge|Hlt]; cbn [orb].
  { intros [= <-]. split; [by destruct r |]. split; [done |].
    intros skin _ Hskin%lookup_lt_Some. unfold len in Hge. lia. }
  destruct (at_index (Skins r) skinIndex) as [skin| |] eqn:Hskin;
    cbn [mbind outcome_bind]; [| done | done].
  apply at_index_Done in Hskin as [_ Hskin].
  destruct (boneLoop _ _ _ _ _ _) as [bones| |] eqn:Hloop;
    cbn [mbind outcome_bind]; [| done | done].
  intros [= <-]. split; [done |]. split; [lia |].
  intros skin' _ Hskin'. assert (skin' = skin) as -> by congruence.
  apply boneLoop_frame in Hloop as [Hlen Hkeep].
  cbn [BoneMatrices set_BoneMatrices]. rewrite Hlen.
  destruct (Nat.ltb_spec (length (BoneMatrices r)) (length (Joints skin))).
  - rewrite length_replicate. split; [lia |]. intros k Hk. lia.
  - split; [lia |]. intros k Hk. apply Hkeep. lia.
Qed.

End Accessors.

(** ** Drawing *)

Section Drawing.
Context {F32 : Float32} {M32 : Mgl32} {MOD : Modeler}.

Lemma UpdateAnimation_meshes (r r' : GLBRenderer) (now : Z) :
  UpdateAnimation r now = Done r' → Meshes r' = Meshes r.
Proof.
  unfold UpdateAnimation. destruct (CurrentAnim r) as [anim|];
    [| by intros [= <-]].
  destruct (effectiveElapsed _ _ _); [| by intros [= <-]].
  destruct (resetToBase r); cbn [mbind outcome_bind]; [| done | done].
  destruct (applyChannels _ _ _); cbn [mbind outcome_bind]; [| done | done].
  by intros [= <-].
Qed.

Lemma uploads_of_mapM (bones : list Mat4) (indices : list nat) :
  ∀ uploads,
    mapM (λ i, m ← at_index bones (Z.of_nat i); Done (UniformBoneMatrix i m))
      indices = Done uploads →
    drawCalls uploads = [] ∧ length (boneUploads uploads) = length indices.
Proof.
  induction indices as [|i rest IH]; intros uploads; cbn [mapM].
  - by intros [= <-].
  - destruct (at_index bones (Z.of_nat i)) as [m| |]; cbn [mbind outcome_bind];
      [| done | done].
    destruct (mapM _ rest) as [ups| |]; cbn [mbind outcome_bind];
      [| done | done].
    intros [= <-]. destruct (IH ups eq_refl) as [Hdraw Hlen].
    split; [done |]. cbn. by rewrite <- Hlen.
Qed.

Lemma uploads_of_identity (indices : list nat) :
  drawCalls ((λ i, UniformBoneMatrix i Ident4) <$> indices) = []
  ∧ length (boneUploads ((λ i, UniformBoneMatrix i Ident4) <$> indices))
    = length indices.
Proof.
  induction indices as [|i rest [IH1 IH2]]; [done |].
  split; [done |]. cbn. by rewrite <- IH2.
Qed.

Lemma drawOf_calls (mesh : Mesh) :
  drawCalls [drawOf mesh] = [drawOf mesh] ∧ boneUploads [drawOf mesh] = [].
Proof. unfold drawOf. by destruct (HasIndices mesh). Qed.

Lemma renderMesh_calls (fuel : nat) (r r' : GLBRenderer) (mesh : Mesh)
    (calls : list GLCall) :
  renderMesh fuel r mesh = Done (r', calls) →
  drawCalls calls = [drawOf mesh]
  ∧ Meshes r' = Meshes r
  ∧ (length (boneUploads calls) ≤ 128)%nat.
Proof.
  unfold renderMesh. fold (drawOf mesh).
  destruct (drawOf_calls mesh) as [Hdraw Hnone].
  destruct (_ && _).
  - destruct (computeBoneMatrices fuel r (SkinIndex mesh)) as [r1| |] eqn:Hbones;
      cbn [mbind outcome_bind]; [| done | done].
    destruct (at_index (Skins r1) (SkinIndex mesh)) as [skin| |];
      cbn [mbind outcome_bind]; [| done | done].
    destruct (mapM _ _) as [uploads| |] eqn:Hup; cbn [mbind outcome_bind];
      [| done | done].
    intros [= <- <-]. apply uploads_of_mapM in Hup as [Hup Hlen].
    unfold drawCalls, boneUploads in *.
    rewrite !omap_app, Hup, Hdraw, Hnone, length_app, Hlen, length_seq.
    split; [done |]. split.
    + revert Hbones. unfold computeBoneMatrices.
      destruct (_ || _); [by intros [= <-] |].
      destruct (at_index (Skins r) _); cbn [mbind outcome_bind];
        [| done | done].
      destruct (boneLoop _ _ _ _ _ _); cbn [mbind outcome_bind];
        [| done | done].
      by intros [= <-].
    + cbn [length]. destruct (Nat.ltb_spec 128 (length (Joints skin))); lia.
  - pose proof (length_seq 128 0) as Hidx. revert Hidx.
    generalize (seq 0 128). intros indices Hidx [= <- <-].
    destruct (uploads_of_identity indices) as [Hup Hlen].
    unfold drawCalls, boneUploads in *.
    rewrite !omap_app, Hup, Hdraw, Hnone, length_app, Hlen, Hidx.
    split; [done |]. split; [done |]. cbn [length]. lia.
Qed.

Lemma renderMeshes_calls (fuel : nat) (meshes : list Mesh) :
  ∀ r0 calls0 r' calls,
    foldM (λ '(r, calls) mesh,
             res ← renderMesh fuel r mesh;
             Done (res.1, calls ++ res.2))
      (r0, calls0) meshes = Done (r', calls) →
    drawCalls calls = drawCalls calls0 ++ (drawOf <$> meshes)
    ∧ Meshes r' = Meshes r0
    ∧ (length (boneUploads calls)
       ≤ length (boneUploads calls0) + 128 * length meshes)%nat.
Proof.
  induction meshes as [|mesh rest IH]; intros r0 calls0 r' calls;
    cbn [foldM].
  - intros [= <- <-]. rewrite app_nil_r. split; [done |]. split; [done |].
    cbn [length]. lia.
  - destruct (renderMesh fuel r0 mesh) as [[r1 calls1]| |] eqn:Hmesh;
      cbn [mbind outcome_bind fst snd]; [| done | done].
    apply renderMesh_calls in Hmesh as (Hdraw & Hmeshes & Hup).
    intros (Hrest & Hsame & Hcount)%IH.
    unfold drawCalls, boneUploads in *.
    rewrite omap_app, Hdraw in Hrest. rewrite omap_app, length_app in Hcount.
    rewrite Hrest, Hsame, Hmeshes, <- (assoc_L (++)).
    split; [done |]. split; [done |]. cbn [length]. lia.
Qed.

Lemma UpdateAnimation_skins (r r' : GLBRenderer) (now : Z) :
  UpdateAnimation r now = Done r' → Skins r' = Skins r.
Proof.
  unfold UpdateAnimation. destruct (CurrentAnim r) as [anim|];
    [| by intros [= <-]].
  destruct (effectiveElapsed _ _ _); [| by intros [= <-]].
  destruct (resetToBase r); cbn [mbind outcome_bind]; [| done | done].
  destruct (applyChannels _ _ _); cbn [mbind outcome_bind]; [| done | done].
  by intros [= <-].
Qed.

Lemma uploads_are_bone_matrices (bones : list Mat4) (indices : list nat) :
  ∀ uploads,
    mapM (λ i, m ← at_index bones (Z.of_nat i); Done (UniformBoneMatrix i m))
      indices = Done uploads →
    length uploads = length indices
    ∧ Forall (λ call, ∃ i m, call = UniformBoneMatrix i m ∧ i ∈ indices)
        uploads.
Proof.
  induction indices as [|i rest IH]; intros uploads; cbn [mapM].
  - by intros [= <-].
  - destruct (at_index bones (Z.of_nat i)) as [m| |]; cbn [mbind outcome_bind];
      [| done | done].
    destruct (mapM _ rest) as [ups| |]; cbn [mbind outcome_bind];
      [| done | done].
    intros [= <-]. destruct (IH ups eq_refl) as [Hlen Hall].
    split; [cbn [length]; by rewrite Hlen |]. constructor.
    + exists i, m. split; [done |]. apply elem_of_cons. by left.
    + eapply Forall_impl; [exact Hall |].
      intros call (i' & m' & -> & Hin). exists i', m'. split; [done |].
      apply elem_of_cons. by right.
Qed.

(** The calls of Render for one mesh: its uploads, then its draw call. *)
Lemma renderMesh_segment (fuel : nat) (r r' : GLBRenderer) (mesh : Mesh)
    (calls : list GLCall) :
  renderMesh fuel r mesh = Done (r', calls) →
  Skins r' = Skins r
  ∧ ∃ uploads,
      calls = uploads ++ [drawOf mesh]
      ∧ (length uploads ≤ 128)%nat
      ∧ Forall (λ call, ∃ i m, call = UniformBoneMatrix i m ∧ (i < 128)%nat)
          uploads
      ∧ (SkinIndex mesh < 0 ∨ len (Skins r) ≤ SkinIndex mesh →
         uploads = (λ i, UniformBoneMatrix i Ident4) <$> seq 0 128).
Proof.
  unfold renderMesh. fold (drawOf mesh).
  destruct (Z.leb_spec 0 (SkinIndex mesh)) as [Hpos|Hneg];
    [destruct (Z.ltb_spec (SkinIndex mesh) (len (Skins r))) as [Hlt|Hge] |];
    cbn [andb].
  - destruct (computeBoneMatrices fuel r (SkinIndex mesh)) as [r1| |] eqn:Hbones;
      cbn [mbind outcome_bind]; [| done | done].
    apply computeBoneMatrices_skins in Hbones.
    destruct (at_index (Skins r1) (SkinIndex mesh)) as [skin| |];
      cbn [mbind outcome_bind]; [| done | done].
    destruct (mapM _ _) as [uploads| |] eqn:Hup; cbn [mbind outcome_bind];
      [| done | done].
    intros [= <- <-]. split; [done |]. exists uploads. split; [done |].
    apply uploads_are_bone_matrices in Hup as [Hlen Hall].
    rewrite length_seq in Hlen. split; [| split; [| lia]].
    + destruct (Nat.ltb_spec 128 (length (Joints skin))); lia.
    + eapply Forall_impl; [exact Hall |].
      intros call (i & m & -> & Hin%elem_of_seq). exists i, m.
      split; [done |]. destruct (Nat.ltb_spec 128 (length (Joints skin))); lia.
  - remember (seq 0 128) as indices eqn:Hindices.
    intros [= <- <-]. split; [done |]. eexists. split; [done |].
    rewrite length_fmap, Hindices, length_seq. split; [lia |].
    split; [| done].
    apply Forall_fmap, Forall_forall. intros i Hin%elem_of_seq.
    exists i, Ident4. split; [done | lia].
  - remember (seq 0 128) as indices eqn:Hindices.
    intros [= <- <-]. split; [done |]. eexists. split; [done |].
    rewrite length_fmap, Hindices, length_seq. split; [lia |].
    split; [| done].
    apply Forall_fmap, Forall_forall. intros i Hin%elem_of_seq.
    exists i, Ident4. split; [done | lia].
Qed.

Lemma renderMeshes_segments (fuel : nat) (meshes : list Mesh) :
  ∀ r0 calls0 r' calls,
    foldM (λ '(r, calls) mesh,
             res ← renderMesh fuel r mesh;
             Done (res.1, calls ++ res.2))
      (r0, calls0) meshes = Done (r', calls) →
    ∃ segments,
      calls = calls0 ++ concat segments
      ∧ Forall2
          (λ mesh segment,
             ∃ uploads,
               segment = uploads ++ [drawOf mesh]
               ∧ (length uploads ≤ 128)%nat
               ∧ Forall (λ call, ∃ i m, call = UniformBoneMatrix i m
                                        ∧ (i < 128)%nat) uploads
               ∧ (SkinIndex mesh < 0 ∨ len (Skins r0) ≤ SkinIndex mesh →
                  uploads = (λ i, UniformBoneMatrix i Ident4) <$> seq 0 128))
          meshes segments.
Proof.
  induction meshes as [|mesh rest IH]; intros r0 calls0 r' calls;
    cbn [foldM].
  - intros [= <- <-]. exists []. cbn [concat]. rewrite app_nil_r.
    split; [done | constructor].
  - destruct (renderMesh fuel r0 mesh) as [[r1 calls1]| |] eqn:Hmesh;
      cbn [mbind outcome_bind fst snd]; [| done | done].
    apply renderMesh_segment in Hmesh as (Hskins & uploads & -> & Hmesh).
    intros (segments & -> & Hrest)%IH. rewrite Hskins in Hrest.
    exists ((uploads ++ [drawOf mesh]) :: segments). cbn [concat].
    split; [by rewrite <- !(assoc_L (++)) |].
    constructor; [by exists uploads | done].
Qed.

(** X16. Render (827-884). A call that returns issues, for each mesh in the
    order of [Meshes], a segment of calls: at most 128 uploads of bone
    matrices, with indices below 128, followed by the one draw call of the
    mesh, of the kind the mesh asks for ([DrawElements] with its index
    count or [DrawArrays] with its vertex count); a mesh whose skin index
    names no skin gets the identity for each of the 128 indices. There are
    no other draw calls, and the meshes are unchanged. *)
Theorem render_draws_every_mesh_once (fuel : nat) (r r' : GLBRenderer)
    (now : Z) (calls : list GLCall) :
  Render fuel r now = Done (r', calls) →
  drawCalls calls = drawOf <$> Meshes r
  ∧ Meshes r' = Meshes r
  ∧ (length (boneUploads calls) ≤ 128 * length (Meshes r))%nat
  ∧ ∃ segments,
      calls = concat segments
      ∧ Forall2
          (λ mesh segment,
             ∃ uploads,
               segment = uploads ++ [drawOf mesh]
               ∧ (length uploads ≤ 128)%nat
               ∧ Forall (λ call, ∃ i m, call = UniformBoneMatrix i m
                                        ∧ (i < 128)%nat) uploads
               ∧ (SkinIndex mesh < 0 ∨ len (Skins r) ≤ SkinIndex mesh →
                  uploads = (λ i, UniformBoneMatrix i Ident4) <$> seq 0 128))
          (Meshes r) segments.
Proof.
  unfold Render.
  destruct (UpdateAnimation r now) as [r1| |] eqn:Hupdate;
    cbn [mbind outcome_bind]; [| done | done].
  pose proof (UpdateAnimation_skins _ _ _ Hupdate) as Hskins.
  apply UpdateAnimation_meshes in Hupdate.
  intros Hrun.
  destruct (renderMeshes_calls _ _ _ _ _ _ Hrun) as (Hdraw & Hmeshes & Hcount).
  destruct (renderMeshes_segments _ _ _ _ _ _ Hrun) as (segments & Hcalls & Hall).
  rewrite Hupdate, ?Hskins in *. by repeat split; [| | | exists segments].
Qed.

End Drawing.

(** ** What a load leaves behind *)

Section LoadedState.
Context {F32 : Float32} {M32 : Mgl32} {MOD : Modeler}.

Lemma loadPrimitives_appends (doc : Document) (nodeIdx : nat) (node : GltfNode)
    (prims : list Primitive) :
  ∀ meshes meshes' err,
    loadPrimitives doc nodeIdx node prims meshes = Done (meshes', err) →
    ∃ new, meshes' = meshes ++ new
         ∧ (∀ m, m ∈ new → mNodeIndex m = Z.of_nat nodeIdx
                          ∧ SkinIndex m = default (-1) (nSkin node))
         ∧ (err = None → length new = length prims).
Proof.
  induction prims as [|prim rest IH]; intros meshes meshes' err;
    cbn [loadPrimitives].
  - intros [= <- <-]. exists []. rewrite app_nil_r. split; [done |].
    split; [| done]. intros m Hm. by apply elem_of_nil in Hm.
  - destruct (loadPrimitive doc prim) as [[m [e|]]| |];
      cbn [mbind outcome_bind]; [| | done | done].
    + intros [= <- <-]. exists []. rewrite app_nil_r. split; [done |].
      split; [| done]. intros m' Hm. by apply elem_of_nil in Hm.
    + intros (new & -> & Hnew & Hcount)%IH. eexists (_ :: new).
      rewrite <- (assoc_L (++)). split; [done |]. split.
      * intros m' [-> | Hm]%elem_of_cons; [done | by apply Hnew].
      * intros Herr. cbn [length]. by rewrite Hcount.
Qed.

Lemma loadMeshesFrom_appends (doc : Document) (nodes : list GltfNode) :
  ∀ nodeIdx meshes meshes' err,
    loadMeshesFrom doc nodeIdx nodes meshes = Done (meshes', err) →
    ∃ new, meshes' = meshes ++ new
         ∧ ∀ m, m ∈ new →
             Z.of_nat nodeIdx ≤ mNodeIndex m
             < Z.of_nat nodeIdx + len nodes.
Proof.
  induction nodes as [|node rest IH]; intros nodeIdx meshes meshes' err;
    cbn [loadMeshesFrom].
  - intros [= <- <-]. exists []. rewrite app_nil_r. split; [done |].
    intros m Hm. by apply elem_of_nil in Hm.
  - assert (∃ new, ∀ res e,
              loadMeshesOfNode doc nodeIdx node meshes = Done (res, e) →
              res = meshes ++ new res
              ∧ ∀ m, m ∈ new res → mNodeIndex m = Z.of_nat nodeIdx)
      as [new Hnode].
    { exists (drop (length meshes)). intros res e. unfold loadMeshesOfNode.
      destruct (nMesh node) as [meshIdx|].
      - destruct (at_index (dMeshes doc) meshIdx) as [mesh| |];
          cbn [mbind outcome_bind]; [| done | done].
        intros (new & -> & Hnew & _)%loadPrimitives_appends.
        rewrite drop_app_length. split; [done |].
        intros m Hm. by apply Hnew.
      - intros [= <- <-]. rewrite drop_all, app_nil_r. split; [done |].
        intros m Hm. by apply elem_of_nil in Hm. }
    destruct (loadMeshesOfNode doc nodeIdx node meshes) as [[ms [e|]]| |]
      eqn:Hrun; cbn [mbind outcome_bind]; [| | done | done].
    + intros [= <- <-]. destruct (Hnode _ _ eq_refl) as [Hms Hidx].
      exists (new ms). split; [done |]. intros m Hm.
      rewrite (Hidx m Hm). unfold len. cbn [length]. lia.
    + destruct (Hnode _ _ eq_refl) as [Hms Hidx].
      intros (new' & -> & Hnew')%IH. exists (new ms ++ new').
      split; [by rewrite (assoc_L (++)), <- Hms |].
      unfold len in *. cbn [length].
      intros m [Hm | Hm]%elem_of_app.
      * rewrite (Hidx m Hm). lia.
      * specialize (Hnew' m Hm). lia.
Qed.

Lemma maxJoints_bound (skins : list Skin) :
  ∀ skin, skin ∈ skins → (length (Joints skin) ≤ maxJoints skins)%nat.
Proof.
  unfold maxJoints.
  assert (∀ (l : list Skin) (m0 : nat),
            (m0 ≤ foldl (λ m skin, if (m <? length (Joints skin))%nat
                                   then length (Joints skin) else m) m0 l)%nat
            ∧ ∀ skin, skin ∈ l →
                (length (Joints skin)
                 ≤ foldl (λ m skin, if (m <? length (Joints skin))%nat
                                    then length (Joints skin) else m) m0 l)%nat)
    as Hfold.
  { induction l as [|s l IH]; intros m0; cbn [foldl].
    - split; [done |]. intros skin Hin. by apply elem_of_nil in Hin.
    - destruct (IH (if (m0 <? length (Joints s))%nat
                    then length (Joints s) else m0)) as [Hge Hall].
      destruct (Nat.ltb_spec m0 (length (Joints s))); (split; [lia |]);
        intros skin [-> | Hin]%elem_of_cons; first [lia | by apply Hall]. }
  intros skin Hin. by apply Hfold.
Qed.

(** X17. LoadGLB (209-393). Whatever a load of an opened document returns, an
    error or not, it has replaced the current and the base transforms by
    the transforms of the nodes of the document, one per node, and the
    table of parents has an entry per node; the meshes the renderer had
    are kept and the loaded ones come after them, each with the index of a
    node of the document; the bone buffer has room for the joints of every
    stored skin; the playback state is untouched. Without an error there
    is at least one mesh; with an error the clips are those the renderer
    had. *)
Theorem load_replaces_pose_and_appends_meshes (r r' : GLBRenderer)
    (doc : Document) (err : option error) :
  LoadGLB r (Some doc) = Done (r', err) →
  NodeTransforms r' = initialTransform <$> Nodes doc
  ∧ BaseTransforms r' = NodeTransforms r'
  ∧ length (NodeParents r') = length (Nodes doc)
  ∧ (∃ new, Meshes r' = Meshes r ++ new
          ∧ ∀ m, m ∈ new → 0 ≤ mNodeIndex m < len (Nodes doc))
  ∧ (∀ skin, skin ∈ Skins r' →
       (length (Joints skin) ≤ length (BoneMatrices r'))%nat)
  ∧ CurrentAnim r' = CurrentAnim r
  ∧ AnimStartTime r' = AnimStartTime r
  ∧ AnimLoop r' = AnimLoop r
  ∧ (err = None → Meshes r' ≠ [])
  ∧ (err ≠ None → Animations r' = Animations r).
Proof.
  unfold LoadGLB, buildNodeParents.
  destruct (buildParentsFrom 0 (Nodes doc) _) as [parents| |] eqn:Hparents;
    cbn [mbind outcome_bind]; [| done | done].
  apply buildParentsFrom_length in Hparents.
  rewrite length_replicate in Hparents.
  destruct (mapM (loadSkin doc) (dSkins doc)) as [skins| |];
    cbn [mbind outcome_bind]; [| done | done].
  set (bones := if (0 <? length (Skins r ++ skins))%nat
                then replicate (maxJoints (Skins r ++ skins)) Ident4
                else BoneMatrices r).
  assert (∀ skin, skin ∈ Skins r ++ skins →
            (length (Joints skin) ≤ length bones)%nat) as Hbones.
  { intros skin Hin. unfold bones.
    destruct (Nat.ltb_spec 0 (length (Skins r ++ skins))) as [|Hnone].
    - rewrite length_replicate. by apply maxJoints_bound.
    - destruct (Skins r ++ skins); [by apply elem_of_nil in Hin |].
      cbn [length] in Hnone. lia. }
  destruct (loadMeshesFrom doc 0 (Nodes doc) (Meshes r)) as [[meshes [e|]]| |]
    eqn:Hmeshes; cbn [mbind outcome_bind]; [| | done | done];
    apply loadMeshesFrom_appends in Hmeshes as (new & -> & Hnew).
  - intros [= <- <-]. cbn. do 3 (split; [done |]).
    split; [by exists new |]. by repeat split.
  - destruct (Nat.eqb_spec (length (Meshes r ++ new)) 0) as [|Hsome].
    + intros [= <- <-]. cbn. do 3 (split; [done |]).
      split; [by exists new |]. by repeat split.
    + destruct (foldM (loadAnimation doc) (Animations r) (dAnimations doc));
        cbn [mbind outcome_bind]; [| done | done].
      intros [= <- <-]. cbn. do 3 (split; [done |]).
      split; [by exists new |]. do 4 (split; [done |]).
      split; [| done]. intros _ Hnil. by rewrite Hnil in Hsome.
Qed.





(** The string of a uint8 is none of the property names. *)
Lemma runeString_names_no_property (v : Z) :
  runeString v ≠ "translation" ∧ runeString v ≠ "rotation"
  ∧ runeString v ≠ "scale".
Proof. unfold runeString. by destruct (v <? 128). Qed.

Lemma writeProperty_no_property (path : string) (value : list float32)
    (t : NodeTransform) :
  path ≠ "translation" → path ≠ "rotation" → path ≠ "scale" →
  writeProperty path value t = t.
Proof.
  intros Ht%String.eqb_neq Hr%String.eqb_neq Hs%String.eqb_neq.
  unfold writeProperty. by rewrite Ht, Hr, Hs.
Qed.

Lemma applyChannels_no_property (elapsed : float32)
    (channels : list AnimationChannel) :
  Forall namesNoProperty channels →
  ∀ nts nts', applyChannels elapsed channels nts = Done nts' → nts' = nts.
Proof.
  induction 1 as [|channel rest (Ht & Hr & Hs) _ IH]; intros nts nts';
    cbn [applyChannels]; [by intros [= <-] |].
  assert (∀ nts1, applyChannel elapsed nts channel = Done nts1 → nts1 = nts)
    as Hone.
  { intros nts1. unfold applyChannel. destruct (_ || _); [by intros [= <-] |].
    destruct (interpolateKeyframes channel elapsed) as [value| |];
      cbn [mbind outcome_bind]; [| done | done].
    intros [= <-]. apply list_alter_id. intros t.
    by apply writeProperty_no_property. }
  destruct (applyChannel elapsed nts channel) as [nts1| |];
    cbn [mbind outcome_bind]; [| done | done].
  rewrite (Hone nts1 eq_refl). apply IH.
Qed.

Lemma loadChannels_name_no_property (doc : Document) (anim : GltfAnimation)
    (channels : list GltfChannel) :
  ∀ a a', Forall namesNoProperty (Channels a) →
    foldM (loadChannel doc anim) a channels = Done a' →
    Forall namesNoProperty (Channels a').
Proof.
  induction channels as [|channel rest IH]; intros a a' Hall; cbn [foldM];
    [by intros [= <-] |].
  destruct (loadChannel doc anim a channel) as [a1| |] eqn:Hone;
    cbn [mbind outcome_bind]; [| done | done].
  apply IH. revert Hone. unfold loadChannel.
  destruct (cTargetNode channel) as [node|]; [| by intros [= <-]].
  destruct (at_index _ _) as [sampler| |]; cbn [mbind outcome_bind];
    [| done | done].
  destruct (readAccessorFloats doc (sInput sampler)) as [[timestamps|]| |];
    cbn [mbind outcome_bind]; [| by intros [= <-] | done | done].
  destruct (readAccessorFloats doc (sOutput sampler)) as [[values|]| |];
    cbn [mbind outcome_bind]; [| by intros [= <-] | done | done].
  intros [= <-]. cbn [Channels]. apply Forall_app. split; [done |].
  constructor; [| constructor]. apply runeString_names_no_property.
Qed.

Lemma loadAnimations_name_no_property (doc : Document)
    (anims : list GltfAnimation) :
  ∀ stored stored', clipsNameNoProperty stored →
    foldM (loadAnimation doc) stored anims = Done stored' →
    clipsNameNoProperty stored'.
Proof.
  induction anims as [|anim rest IH]; intros stored stored' Hall; cbn [foldM];
    [by intros [= <-] |].
  destruct (loadAnimation doc stored anim) as [stored1| |] eqn:Hone;
    cbn [mbind outcome_bind]; [| done | done].
  apply IH. revert Hone. unfold loadAnimation.
  set (name := if String.eqb (gaName anim) "" then _ else _).
  destruct (foldM _ _ _) as [a| |] eqn:Hfold; cbn [mbind outcome_bind];
    [| done | done].
  apply loadChannels_name_no_property in Hfold; [| constructor].
  destruct (0 <? length (Channels a))%nat; intros [= <-]; [| done].
  intros key clip [[_ <-] | [_ Hold]]%lookup_insert_Some; [done |].
  by eapply Hall.
Qed.

(** X28. LoadGLB (377-383) and UpdateAnimation (589-637). LoadGLB stores
    the path of a channel as [string(channel.Target.Path)], the string of
    a uint8, which is none of "translation", "rotation" and "scale": the
    switch of UpdateAnimation has no case for it. So, for a renderer whose
    clips all came from LoadGLB, the clips after a further load name no
    property either, and playing any of them moves no node: after every
    update that returns, at any time, the current transforms are those
    the load left. *)
Theorem loaded_clips_move_no_node (r r1 : GLBRenderer) (doc : Document)
    (err : option error) :
  clipsNameNoProperty (Animations r) →
  LoadGLB r (Some doc) = Done (r1, err) →
  clipsNameNoProperty (Animations r1)
  ∧ ∀ name loop start now r2 r3,
      PlayAnimation r1 name loop start = (r2, None) →
      UpdateAnimation r2 now = Done r3 →
      NodeTransforms r3 = NodeTransforms r1.
Proof.
  intros Hall Hload.
  destruct (LoadGLB_transforms _ _ _ _ Hload) as (Hbase & _ & _).
  assert (clipsNameNoProperty (Animations r1)) as Hall1.
  { revert Hload. unfold LoadGLB.
    destruct (buildNodeParents doc); cbn [mbind outcome_bind]; [| done | done].
    destruct (mapM (loadSkin doc) (dSkins doc)); cbn [mbind outcome_bind];
      [| done | done].
    destruct (loadMeshesFrom doc 0 (Nodes doc) (Meshes r))
      as [[meshes [e|]]| |]; cbn [mbind outcome_bind];
      [by intros [= <- <-] | | done | done].
    destruct (length meshes =? 0)%nat; [by intros [= <- <-] |].
    destruct (foldM (loadAnimation doc) (Animations r) (dAnimations doc))
      as [anims| |] eqn:Hfold; cbn [mbind outcome_bind]; [| done | done].
    intros [= <- <-]. cbn [Animations].
    by eapply loadAnimations_name_no_property. }
  split; [done |].
  intros name loop start now r2 r3. unfold PlayAnimation.
  destruct (Animations r1 !! name) as [anim|] eqn:Hanim; [| done].
  intros [= <-]. unfold UpdateAnimation.
  cbn [CurrentAnim AnimLoop AnimStartTime].
  destruct (effectiveElapsed _ _ _) as [elapsed|]; [| by intros [= <-]].
  unfold resetToBase. cbn [NodeTransforms BaseTransforms].
  destruct (decide _) as [_|Hno]; [| rewrite Hbase in Hno; lia].
  cbn [mbind outcome_bind].
  destruct (applyChannels _ _ _) as [nts| |] eqn:Hrun;
    cbn [mbind outcome_bind]; [| done | done].
  intros [= <-]. cbn [NodeTransforms set_NodeTransforms].
  apply applyChannels_no_property in Hrun; [| by eapply Hall1].
  by rewrite Hrun, Hbase, firstn_all.
Qed.

End LoadedState.

(** ** The vertex buffer and its attribute pointers *)

Section VertexLayout.
Context {F32 : Float32}.
Variable two : float32.
Variable float32_of_uint16 : Z → float32.

Lemma vertexFloats_length (i : nat) (pos : Vec3) (normals : list Vec3)
    (texCoords : list (float32 * float32)) (joints : list (Z * Z * Z * Z))
    (weights : list Vec4) :
  length (vertexFloats two float32_of_uint16 i pos normals texCoords joints
            weights) = 16%nat.
Proof.
  unfold vertexFloats. destruct pos as [[px py] pz].
  destruct (normals !! i) as [[[??]?]|], (texCoords !! i) as [[??]|],
    (joints !! i) as [[[[??]?]?]|], (weights !! i) as [[[[??]?]?]|]; done.
Qed.

Lemma vertexDataFrom_length (positions normals : list Vec3)
    (texCoords : list (float32 * float32)) (joints : list (Z * Z * Z * Z))
    (weights : list Vec4) :
  ∀ start,
    length (vertexDataFrom two float32_of_uint16 start positions normals
              texCoords joints weights) = (16 * length positions)%nat.
Proof.
  induction positions as [|pos rest IH]; intros start; [done |].
  cbn [vertexDataFrom length].
  rewrite length_app, vertexFloats_length, IH. lia.
Qed.

Lemma vertexDataFrom_drop (normals : list Vec3)
    (texCoords : list (float32 * float32)) (joints : list (Z * Z * Z * Z))
    (weights : list Vec4) (pos : Vec3) :
  ∀ (positions : list Vec3) (start i : nat),
    positions !! i = Some pos →
    ∃ rest,
      drop (16 * i)
        (vertexDataFrom two float32_of_uint16 start positions normals
           texCoords joints weights)
      = vertexFloats two float32_of_uint16 (start + i) pos normals texCoords
          joints weights ++ rest.
Proof.
  induction positions as [|p positions IH]; intros start i Hi;
    [by rewrite lookup_nil in Hi |].
  destruct i as [|i]; cbn [vertexDataFrom].
  - injection Hi as ->. rewrite Nat.add_0_r. by eexists.
  - destruct (IH (S start) i Hi) as [rest Hrest]. exists rest.
    replace (16 * S i)%nat
      with (length (vertexFloats two float32_of_uint16 start p normals
                      texCoords joints weights) + 16 * i)%nat
      by (rewrite vertexFloats_length; lia).
    rewrite drop_app_add, Hrest. do 2 f_equal. lia.
Qed.

(** X19. loadPrimitive (444-487). The vertex buffer holds 16 floats for each
    position, whatever attributes the primitive has. *)
Theorem vertex_buffer_has_sixteen_floats_per_vertex
    (positions normals : list Vec3) (texCoords : list (float32 * float32))
    (joints : list (Z * Z * Z * Z)) (weights : list Vec4) :
  len (vertexData two float32_of_uint16 positions normals texCoords joints
         weights) = 16 * len positions.
Proof.
  unfold vertexData, len. rewrite vertexDataFrom_length. lia.
Qed.

(** X20. loadPrimitive (444-522). The attribute pointers agree with the
    interleaving: for every vertex, location 0 fetches its position,
    location 1 its normal or (0, 1, 0) when the primitive has none for it,
    location 2 its texture coordinates or the ones generated from the
    position, location 3 its joint indices as floats and location 4 its
    weights, both 0 when missing. *)
Theorem attribute_pointers_match_the_interleaving
    (positions normals : list Vec3) (texCoords : list (float32 * float32))
    (joints : list (Z * Z * Z * Z)) (weights : list Vec4) (i : nat)
    (px py pz : float32) :
  positions !! i = Some (px, py, pz) →
  let data := vertexData two float32_of_uint16 positions normals texCoords
                joints weights in
  vertexAttribute data 0 i = [px; py; pz]
  ∧ vertexAttribute data 1 i
    = match normals !! i with
      | Some (nx, ny, nz) => [nx; ny; nz]
      | None => [f0; f1; f0]
      end
  ∧ vertexAttribute data 2 i
    = match texCoords !! i with
      | Some (u, v) => [u; v]
      | None => [fdiv (fadd px f1) two; fdiv (fadd py f1) two]
      end
  ∧ vertexAttribute data 3 i
    = match joints !! i with
      | Some (j0, j1, j2, j3) =>
          [float32_of_uint16 j0; float32_of_uint16 j1;
           float32_of_uint16 j2; float32_of_uint16 j3]
      | None => [f0; f0; f0; f0]
      end
  ∧ vertexAttribute data 4 i
    = match weights !! i with
      | Some (w0, w1, w2, w3) => [w0; w1; w2; w3]
      | None => [f0; f0; f0; f0]
      end.
Proof.
  intros Hi data.
  destruct (vertexDataFrom_drop normals texCoords joints weights _ positions
              0 i Hi) as [rest Hdrop].
  cbn [Nat.add] in Hdrop. fold data in Hdrop.
  assert (∀ location size offset k : Z,
            list_find (λ p : Z * Z * Z, p.1.1 = location) attributePointers
            = Some (Z.to_nat location, (location, size, offset)) →
            offset = k * 4 → 0 ≤ k →
            vertexAttribute data location i
            = take (Z.to_nat size)
                (drop (Z.to_nat k)
                   (vertexFloats two float32_of_uint16 i (px, py, pz) normals
                      texCoords joints weights ++ rest))) as Hat.
  { intros location size offset k Hfind -> Hk. unfold vertexAttribute.
    rewrite Hfind, <- Hdrop, drop_drop. do 2 f_equal.
    unfold vertexStride.
    replace (Z.of_nat i * (16 * 4) + k * 4) with ((16 * Z.of_nat i + k) * 4)
      by lia.
    rewrite Z.div_mul by done. lia. }
  rewrite (Hat 0 3 0 0), (Hat 1 3 (3 * 4) 3), (Hat 2 2 (6 * 4) 6),
    (Hat 3 4 (8 * 4) 8), (Hat 4 4 (12 * 4) 12) by (done || lia).
  unfold vertexFloats.
  destruct (normals !! i) as [[[??]?]|], (texCoords !! i) as [[??]|],
    (joints !! i) as [[[[??]?]?]|], (weights !! i) as [[[[??]?]?]|]; done.
Qed.

End VertexLayout.

(** ** The WebSocket server *)

Section ServerProperties.
Context {F32 : Float32}.

Lemma uint32_range (n : Z) : 0 ≤ uint32 n < 2 ^ 32.
Proof. unfold uint32. apply Z.mod_pos_bound. lia. Qed.

(** X21. BroadcastDesktopBuffer (122-133) and binary.LittleEndian.Uint32. The
    message is 12 bytes longer than the buffer; its first three
    little-endian words are the width, the height and the stride as
    unsigned 32-bit numbers, and the bytes from the twelfth on are the
    buffer. *)
Theorem desktop_message_carries_size_and_pixels (buffer : list Byte.byte)
    (width height stride : Z) :
  len (desktopMessage buffer width height stride) = 12 + len buffer
  ∧ Uint32 (desktopMessage buffer width height stride) = Done (uint32 width)
  ∧ Uint32 (drop 4 (desktopMessage buffer width height stride))
    = Done (uint32 height)
  ∧ Uint32 (drop 8 (desktopMessage buffer width height stride))
    = Done (uint32 stride)
  ∧ drop 12 (desktopMessage buffer width height stride) = buffer.
Proof.
  unfold desktopMessage. rewrite <- !(assoc_L (++)).
  split; [unfold len; cbn [PutUint32 app length]; lia |].
  split; [apply Uint32_PutUint32, uint32_range |].
  split; [apply Uint32_PutUint32, uint32_range |].
  split; [apply Uint32_PutUint32, uint32_range | done].
Qed.

Lemma sendTo_fold (writeFails : nat → bool) (message : list Byte.byte)
    (l : list nat) :
  ∀ (remaining : gset nat) (sent : list (nat * list Byte.byte)),
    ∃ remaining',
      foldl (sendTo writeFails message) (remaining, sent) l
      = (remaining', sent ++ ((λ c, (c, message)) <$> l))
      ∧ ∀ c, c ∈ remaining'
             ↔ c ∈ remaining ∧ ¬ (c ∈ l ∧ writeFails c = true).
Proof.
  induction l as [|client l IH]; intros remaining sent; cbn [foldl].
  - exists remaining. rewrite app_nil_r. split; [done |].
    intros c. rewrite elem_of_nil. tauto.
  - unfold sendTo at 2.
    destruct (IH (if writeFails client then remaining ∖ {[client]}
                  else remaining) (sent ++ [(client, message)]))
      as (remaining' & -> & Hmem).
    exists remaining'. rewrite <- (assoc_L (++)). split; [done |].
    intros c. rewrite Hmem, elem_of_cons.
    destruct (writeFails client) eqn:Hfail.
    + rewrite elem_of_difference, elem_of_singleton.
      split; [intros [[? ?] ?]; split; [done | intros [[-> | ?] ?]; tauto]
             | intros [? Hno]; split; [split; [done |] |]].
      * intros ->. apply Hno. by split; [left |].
      * intros [? ?]. apply Hno. by split; [right |].
    + split; intros [? Hno]; (split; [done |]).
      * intros [[-> | ?] ?]; [congruence | tauto].
      * intros [? ?]. apply Hno. by split; [right |].
Qed.

(** X22. BroadcastDesktopBuffer (122-152). An empty buffer is not sent and the
    server is unchanged. Otherwise every connection is written the same
    message once; the connections whose write failed are deleted and all
    others are kept, so the number of clients does not grow; the handlers
    are unchanged. *)
Theorem broadcast_drops_exactly_the_failed_clients (s : WebSocketServer)
    (writeFails : nat → bool) (buffer : list Byte.byte)
    (width height stride : Z) :
  BroadcastDesktopBuffer s writeFails [] width height stride = (s, [])
  ∧ (buffer ≠ [] →
     ∃ s',
       BroadcastDesktopBuffer s writeFails buffer width height stride
       = (s', (λ c, (c, desktopMessage buffer width height stride))
                <$> elements (clients s))
       ∧ (∀ c, c ∈ clients s' ↔ c ∈ clients s ∧ writeFails c = false)
       ∧ hasKeyboardHandler s' = hasKeyboardHandler s
       ∧ hasMouseHandler s' = hasMouseHandler s
       ∧ ClientCount s' ≤ ClientCount s).
Proof.
  split; [done |]. intros Hne. unfold BroadcastDesktopBuffer.
  destruct buffer as [|b buffer]; [done |]. cbn [length Nat.eqb].
  destruct (sendTo_fold writeFails
              (desktopMessage (b :: buffer) width height stride)
              (elements (clients s)) (clients s) []) as (remaining & -> & Hmem).
  eexists. split; [done |]. cbn [clients hasKeyboardHandler hasMouseHandler].
  assert (∀ c, c ∈ remaining ↔ c ∈ clients s ∧ writeFails c = false) as Hkept.
  { intros c. rewrite Hmem, elem_of_elements.
    destruct (writeFails c); split; intros [? ?]; split; try done.
    - tauto.
    - intros [? ?]. done. }
  split; [done |]. do 2 (split; [done |]).
  unfold ClientCount. cbn [clients]. apply inj_le, subseteq_size.
  intros c Hc. by apply Hkept in Hc as [? _].
Qed.

Lemma Uint32_slice (message : list Byte.byte) (lo hi : nat) :
  hi = (lo + 4)%nat → (hi ≤ length message)%nat →
  ∃ v, (bytes ← slice message lo hi; Uint32 bytes) = Done v.
Proof.
  intros -> Hlen. unfold slice.
  destruct (decide _) as [_|]; [| lia]. cbn [mbind outcome_bind].
  assert (length (take (lo + 4 - lo) (drop lo message)) = 4%nat) as Hfour
    by (rewrite length_take, length_drop; lia).
  destruct (take _ _) as [|b0 [|b1 [|b2 [|b3 rest]]]]; try done.
  by eexists.
Qed.

(** X23. HandleWebSocket (100-115). Whatever bytes a client sends, handling a
    message does not panic: the length tests keep every slice in range.
    Text messages, messages shorter than 6 bytes, messages of a type other
    than 1 and 2, keyboard messages without a keyboard handler and mouse
    messages shorter than 19 bytes are dropped without a call. *)
Theorem malformed_input_is_ignored (s : WebSocketServer) (binary : bool)
    (message : list Byte.byte) :
  (∃ call, handleMessage s binary message = Done call)
  ∧ (binary = false ∨ (length message < 6)%nat →
     handleMessage s binary message = Done None)
  ∧ (byteZ message 0 ≠ 1 → byteZ message 0 ≠ 2 →
     handleMessage s binary message = Done None)
  ∧ (byteZ message 0 = 1 → hasKeyboardHandler s = false →
     handleMessage s binary message = Done None)
  ∧ (byteZ message 0 = 2 → (length message < 19)%nat →
     handleMessage s binary message = Done None).
Proof.
  unfold handleMessage.
  destruct binary; [| by repeat split; [eexists |..]].
  destruct (Nat.leb_spec 6 (length message)) as [Hlen|Hlen]; cbn [andb];
    [| by repeat split; [eexists |..]].
  destruct (Z.eqb_spec (byteZ message 0) 1) as [Hone|Hone]; cbn [andb].
  - destruct (hasKeyboardHandler s) eqn:Hkey.
    + destruct (Uint32_slice message 1 5) as [keycode ->]; [done | lia |].
      cbn [mbind outcome_bind].
      split; [by eexists |]. split; [intros [? | ?]; [done | lia] |].
      split; [done |]. split; [done |]. intros Htwo. lia.
    + destruct (Z.eqb_spec (byteZ message 0) 2); [lia |]. cbn [andb].
      by repeat split; [eexists |..].
  - destruct (Z.eqb_spec (byteZ message 0) 2) as [Htwo|Htwo]; cbn [andb];
      [| by repeat split; [eexists |..]].
    destruct (hasMouseHandler s); cbn [andb];
      [| by repeat split; [eexists |..]].
    destruct (Nat.leb_spec 19 (length message)) as [Hfull|Hshort];
      [| by repeat split; [eexists |..]].
    destruct (Uint32_slice message 2 6) as [x ->]; [done | lia |].
    destruct (Uint32_slice message 6 10) as [y ->]; [done | lia |].
    destruct (Uint32_slice message 10 14) as [button ->]; [done | lia |].
    destruct (Uint32_slice message 15 19) as [scroll ->]; [done | lia |].
    cbn [mbind outcome_bind].
    split; [by eexists |]. split; [intros [? | ?]; [done | lia] |].
    split; [done |]. split; [intros; lia |]. intros _ ?. lia.
Qed.

(** X24. HandleWebSocket (100-105) after PutUint32. A binary message made of
    the byte 1, the four bytes of a key code in little-endian order and a
    byte for the state of the key, followed by anything, calls the
    keyboard handler with that key code, pressed exactly when the state
    byte is not 0. *)
Theorem keyboard_message_reaches_the_handler (s : WebSocketServer)
    (keycode : Z) (state : Byte.byte) (extra : list Byte.byte) :
  hasKeyboardHandler s = true →
  0 ≤ keycode < 2 ^ 32 →
  handleMessage s true (Byte.x01 :: PutUint32 keycode ++ state :: extra)
  = Done (Some (KeyboardCall keycode (negb (Z_of_byte state =? 0)))).
Proof.
  intros Hkey Hrange. unfold handleMessage, PutUint32.
  cbn [app length Nat.leb andb]. rewrite Hkey.
  change (byteZ (Byte.x01 :: _) 0) with 1. cbn [Z.eqb Pos.eqb andb].
  unfold slice. destruct (decide _) as [_|Hno];
    [| cbn [length] in Hno; lia].
  cbn [Nat.sub drop take mbind outcome_bind].
  unfold Uint32. cbn [mbind outcome_bind].
  by rewrite !Z_of_byte_of_Z, word_of_bytes.
Qed.

(** X25. HandleWebSocket (106-113) after PutUint32. A binary message made of
    the byte 2, the event type, the bits of x and of y, the button, the
    state byte and the bits of the scroll amount, all words little-endian,
    calls the mouse handler with those values: the fields are read at the
    offsets 1, 2, 6, 10, 14 and 15. *)
Theorem mouse_message_reaches_the_handler (s : WebSocketServer)
    (eventType state : Byte.byte) (x y button scroll : Z)
    (extra : list Byte.byte) :
  hasMouseHandler s = true →
  0 ≤ x < 2 ^ 32 → 0 ≤ y < 2 ^ 32 →
  0 ≤ button < 2 ^ 32 → 0 ≤ scroll < 2 ^ 32 →
  handleMessage s true
    (Byte.x02 :: eventType :: PutUint32 x ++ PutUint32 y ++ PutUint32 button
       ++ state :: PutUint32 scroll ++ extra)
  = Done (Some (MouseCall (Z_of_byte eventType) (float32frombits x)
                  (float32frombits y) button (negb (Z_of_byte state =? 0))
                  (float32frombits scroll))).
Proof.
  intros Hmouse Hx Hy Hbutton Hscroll. unfold handleMessage, PutUint32.
  cbn [app length Nat.leb andb]. rewrite Hmouse.
  change (byteZ (Byte.x02 :: _) 0) with 2. cbn [Z.eqb Pos.eqb andb].
  unfold slice.
  repeat (destruct (decide _) as [_|Hno]; [| cbn [length] in Hno; lia];
          cbn [Nat.sub drop take mbind outcome_bind Uint32]).
  by rewrite !Z_of_byte_of_Z, !word_of_bytes.
Qed.

End ServerProperties.

(** ** Input translation *)

(** X26. sdlScancodeToLinux and the event loop of main (main.go). No two
    scancodes of the table share a Linux key code, and the code 0 is kept
    for the scancodes outside the table: a key event is forwarded for
    every scancode of the table and for no other, with the key code of the
    table, between 1 and 111, and with the state of the key. *)
Theorem named_scancodes_map_to_distinct_keys :
  (∀ a b, sdlScancodeToLinux a = sdlScancodeToLinux b → a = b)
  ∧ (∀ a, sdlScancodeToLinux a = 0 ↔ a = SCANCODE_OTHER)
  ∧ (∀ a down, keyboardEvent a down = None ↔ a = SCANCODE_OTHER)
  ∧ (∀ a down k d, keyboardEvent a down = Some (k, d) →
       k = sdlScancodeToLinux a ∧ d = down ∧ 1 ≤ k ≤ 111).
Proof.
  split; [| split; [| split]].
  - intros a b Heq. destruct a; cbn in Heq; destruct b;
      first [reflexivity | discriminate Heq].
  - intros a. split; [| by intros ->]. by destruct a.
  - intros a down. split; [| by intros ->]. by destruct a.
  - intros a down k d. destruct a; cbn; intros [= <- <-];
      (split; [reflexivity | split; [reflexivity | lia]]).
Qed.

(** ** The further properties on concrete scenes *)

Module MoreScenarios.
Import IntModel Scenes MoreScenes.

Ltac run_it :=
  lazymatch goal with
  | |- ∃ x, ?c = Done (x, _) ∧ _ =>
      let v := eval vm_compute in c in
      lazymatch v with Done (?a, _) => exists a end
  | |- ∃ x y, ?c = Done (x, y) ∧ _ =>
      let v := eval vm_compute in c in
      lazymatch v with Done (?a, ?b) => exists a, b end
  | |- ∃ x, ?c = Done (Some x) ∧ _ =>
      let v := eval vm_compute in c in
      lazymatch v with Done (Some ?a) => exists a end
  | |- ∃ x, ?c = Done x ∧ _ =>
      let v := eval vm_compute in c in
      lazymatch v with Done ?a => exists a end
  end.

(** Keep the equation of the run as [H]. *)
Ltac keep_run H :=
  lazymatch goal with
  | |- ?c = ?v ∧ _ =>
      assert (c = v) as H by reflexivity; split; [exact H |]
  end.

(** Stopping the posed rig puts the root back at its base transform. *)
Lemma stop_on_posed_rig :
  (length (NodeTransforms posed) ≤ length (BaseTransforms posed))%nat
  ∧ ∃ r', StopAnimation posed = Done r'
        ∧ CurrentAnim r' = None
        ∧ NodeTransforms r' = [restRoot; restChild]
        ∧ Meshes r' = Meshes posed
        ∧ AnimLoop r' = AnimLoop posed
        ∧ (∀ now, UpdateAnimation r' now = Done r').
Proof.
  split; [exact (le_n 2) |].
  destruct (stop_resets_and_is_final posed (le_n 2))
    as (r' & Hrun & Hnone & Hnts & _ & _ & _ & _ & _ & Hmeshes & _ & Hloop
        & _ & _ & _ & _ & Hupdate & _).
  exists r'. by repeat split.
Defined.

(** The looping [slide], six seconds after its start: the clip stays and
    its channels are applied at 6 mod 4 = 2 seconds. *)
Lemma looping_slide_after_six_seconds :
  CurrentAnim looping = Some slide
  ∧ AnimLoop looping = true
  ∧ ∃ nts r',
      UpdateAnimation looping (6 * second) = Done r'
      ∧ r' = set_NodeTransforms looping nts
      ∧ CurrentAnim r' = Some slide
      ∧ applyChannels (fmod (seconds32 (6 * second - AnimStartTime looping))
                         (Duration slide))
          (Channels slide) (BaseTransforms looping) = Done nts.
Proof.
  split; [reflexivity |]. split; [reflexivity |].
  apply (looping_clip_is_never_ended looping (6 * second) slide);
    [reflexivity | reflexivity | reflexivity | reflexivity |].
  constructor; [unfold channelSliceable; cbn; lia | constructor].
Defined.

(** A looping clip of duration 0 is ended by the update one second after
    its start. *)
Lemma still_clip_ends_after_a_second :
  AnimLoop stillLooping = true
  ∧ CurrentAnim stillLooping = Some still
  ∧ UpdateAnimation stillLooping second
    = Done (set_CurrentAnim stillLooping None).
Proof.
  split; [reflexivity |]. split; [reflexivity |].
  apply (clip_without_duration_ends_even_looping stillLooping second still);
    reflexivity.
Defined.

(** The update of the rig two seconds into [slide]. *)
Lemma update_of_playing_rig_keeps_the_rest :
  ∃ r', UpdateAnimation playing (2 * second) = Done r'
      ∧ BaseTransforms r' = BaseTransforms playing
      ∧ Skins r' = Skins playing
      ∧ length (NodeTransforms r') = length (NodeTransforms playing).
Proof.
  run_it. keep_run Hrun.
  destruct (update_touches_only_pose_and_clip _ _ _ Hrun)
    as (Hbase & _ & Hskins & _ & _ & _ & _ & _ & Hlen & _).
  by repeat split.
Defined.

(** The rotation channel sampled between two keyframes. *)
Lemma turn_sampled_yields_a_quaternion :
  Timestamps turnChannel ≠ []
  ∧ channelComplete turnChannel
  ∧ ∃ value, interpolateKeyframes turnChannel 1 = Done value
           ∧ length value = components_of turnChannel.
Proof.
  assert (Timestamps turnChannel ≠ []) as Hne by discriminate.
  split; [exact Hne |]. split; [reflexivity |].
  exact (interpolation_yields_one_value_block turnChannel 1 Hne eq_refl).
Defined.

(** The channel with one keyframe, sampled long after it. *)
Lemma pulse_is_constant :
  length (Timestamps pulse) = 1%nat
  ∧ channelComplete pulse
  ∧ interpolateKeyframes pulse 7 = Done [2; 2; 2].
Proof.
  split; [reflexivity |]. split; [reflexivity |].
  exact (single_keyframe_is_constant pulse 7 eq_refl eq_refl).
Defined.



(** [override] after [slideChannel] on the rig: the translation is the
    one [override] alone gives. *)
Lemma override_wins_over_slide :
  NodeIndex slideChannel = NodeIndex override
  ∧ Path slideChannel = Path override
  ∧ ∃ nts1, applyChannel 2 [restRoot; restChild] slideChannel = Done nts1
    ∧ ∃ value, interpolateKeyframes override 2 = Done value
      ∧ (components_of override ≤ length value)%nat
      ∧ ∃ nts2, applyChannel 2 nts1 override = Done nts2
        ∧ applyChannel 2 [restRoot; restChild] override = Done nts2.
Proof.
  split; [reflexivity |]. split; [reflexivity |].
  run_it. keep_run Hfirst.
  run_it. keep_run Hvalue. split; [exact (le_n 3) |].
  run_it. keep_run Hlater.
  exact (later_channel_overwrites 2 [restRoot; restChild] _ _ slideChannel
           override _ eq_refl eq_refl Hfirst Hvalue (le_n 3) Hlater).
Defined.

(** The positions accessor of [selfParentDoc] declares 9 floats over an
    empty buffer: all 9 are read as 0. *)
Lemma empty_buffer_reads_nine_zeros :
  ∃ floats,
    readAccessorFloats selfParentDoc 0 = Done (Some floats)
    ∧ len floats = 9
    ∧ ∀ k, (k < length floats)%nat → floats !! k = Some 0.
Proof.
  run_it. keep_run Hrun.
  destruct (short_accessor_data_reads_as_zeros _ _ _ Hrun)
    as (accessor & bv & view & buffer & Hacc & Hbv & Hview & Hbuf
        & Hlen & Hzero).
  injection Hacc as <-. injection Hbv as <-. injection Hview as <-.
  injection Hbuf as <-.
  split; [exact Hlen |]. intros k Hk. apply Hzero; [exact Hk |].
  unfold len. cbn. lia.
Defined.

(** The translations of [animatedDoc] are the six words from byte 8 on. *)
Lemma translations_are_decoded :
  Data (mkBuffer (concat (PutUint32 <$> [0; 2; 0; 0; 0; 5; 0; 0])))
  = concat (PutUint32 <$> [0; 2]) ++ concat (PutUint32 <$> [0; 0; 0; 5; 0; 0])
    ++ []
  ∧ readAccessorFloats animatedDoc 2 = Done (Some [0; 0; 0; 5; 0; 0]).
Proof.
  split; [reflexivity |].
  refine (accessor_reads_little_endian_words animatedDoc 2 0
            (mkAccessor (Some 0) 8 AccessorVec3 2) (mkBufferView 0 0)
            (mkBuffer (concat (PutUint32 <$> [0; 2; 0; 0; 0; 5; 0; 0])))
            (concat (PutUint32 <$> [0; 2])) [] [0; 0; 0; 5; 0; 0]
            _ eq_refl eq_refl _ eq_refl _ eq_refl eq_refl eq_refl _ eq_refl);
    [lia | lia | cbn; lia |].
  repeat constructor; lia.
Defined.

(** A skin without an inverse-bind accessor gets identity matrices. *)
Lemma skin_without_accessor_gets_identities :
  ∃ skin, loadSkin selfParentDoc (mkGltfSkin [0; 1] None) = Done skin
        ∧ Joints skin = [0; 1]
        ∧ InverseBindMatrices skin = [Ident4; Ident4].
Proof.
  run_it. keep_run Hrun.
  exact (skin_has_a_matrix_per_joint_or_none _ _ _ Hrun).
Defined.

(** [brokenSkin] loads, and drawing the rig with it panics. *)
Lemma broken_skin_loads_then_panics :
  sInverseBindMatrices brokenSkin = Some 7
  ∧ len (Accessors selfParentDoc) ≤ 7
  ∧ ∃ skin,
      loadSkin selfParentDoc brokenSkin = Done skin
      ∧ ∀ fuel r skinIndex g,
          0 ≤ skinIndex →
          Skins r !! Z.to_nat skinIndex = Some skin →
          getGlobalNodeTransform fuel r 0 = Done g →
          computeBoneMatrices fuel r skinIndex = Panic.
Proof.
  assert (len (Accessors selfParentDoc) ≤ 7) as Hbad by (unfold len; cbn; lia).
  split; [reflexivity |]. split; [exact Hbad |].
  exact (unreadable_inverse_bind_panics_at_draw selfParentDoc brokenSkin 7 0
           [] eq_refl (or_intror Hbad) eq_refl).
Defined.

(** The bone buffer of the rig keeps its two entries. *)
Lemma bone_buffer_of_rig_keeps_its_length :
  ∃ r', computeBoneMatrices 2 rig 0 = Done r'
      ∧ r' = set_BoneMatrices rig (BoneMatrices r')
      ∧ length (BoneMatrices r') = 2%nat.
Proof.
  run_it. keep_run Hrun.
  destruct (bone_buffer_keeps_entries_past_the_joints _ _ _ _ Hrun)
    as (Hframe & _ & Hskin).
  split; [exact Hframe |].
  by destruct (Hskin rigSkin (Z.le_refl 0) eq_refl) as [Hlen _].
Defined.

(** Drawing the rig issues the one draw call of its mesh. *)
Lemma rig_is_drawn_once :
  ∃ r' calls, Render 3 rig 0 = Done (r', calls)
            ∧ drawCalls calls = [DrawArrays 3]
            ∧ Meshes r' = Meshes rig.
Proof.
  run_it. keep_run Hrun.
  destruct (render_draws_every_mesh_once _ _ _ _ _ Hrun)
    as (Hdraw & Hmeshes & _).
  by split.
Defined.

(** Loading [animatedDoc] into a fresh renderer. *)
Lemma animated_document_loads :
  ∃ r', LoadGLB fresh (Some animatedDoc) = Done (r', None)
      ∧ NodeTransforms r' = initialTransform <$> Nodes animatedDoc
      ∧ BaseTransforms r' = NodeTransforms r'
      ∧ Meshes r' ≠ [].
Proof.
  run_it. keep_run Hrun.
  destruct (load_replaces_pose_and_appends_meshes _ _ _ _ Hrun)
    as (Hnts & Hbase & _ & _ & _ & _ & _ & _ & Hsome & _).
  split; [exact Hnts |]. split; [exact Hbase |]. by apply Hsome.
Defined.


(** [animatedDoc] loaded and its clip played: one second in, the clip is
    still playing and the node is where the load put it. *)
Lemma loaded_clip_leaves_the_node :
  clipsNameNoProperty (Animations fresh)
  ∧ ∃ r1, LoadGLB fresh (Some animatedDoc) = Done (r1, None)
    ∧ ∃ r3, UpdateAnimation (PlayAnimation r1 "move" false 0).1 second
            = Done r3
      ∧ (PlayAnimation r1 "move" false 0).2 = None
      ∧ CurrentAnim r3 = Animations r1 !! "move"
      ∧ is_Some (CurrentAnim r3)
      ∧ NodeTransforms r3 = NodeTransforms r1.
Proof.
  assert (clipsNameNoProperty (Animations fresh)) as Hnone.
  { intros name a Hin. unfold fresh in Hin. cbn [Animations] in Hin.
    by rewrite lookup_empty in Hin. }
  split; [exact Hnone |].
  run_it. keep_run Hload. run_it. keep_run Hupdate.
  split; [reflexivity |]. split; [reflexivity |]. split; [by eexists |].
  destruct (loaded_clips_move_no_node _ _ _ _ Hnone Hload) as [_ Hstill].
  refine (Hstill "move" false 0 second _ _ _ Hupdate). reflexivity.
Defined.

(** The second vertex of a primitive with positions only. *)
Lemma second_vertex_attributes :
  [(0, 0, 0); (1, 0, 0)] !! 1%nat = Some (1, 0, 0)
  ∧ vertexAttribute
      (vertexData (F32 := float) 2 id [(0, 0, 0); (1, 0, 0)] [] [] [] []) 0 1
    = [1; 0; 0]
  ∧ vertexAttribute
      (vertexData (F32 := float) 2 id [(0, 0, 0); (1, 0, 0)] [] [] [] []) 1 1
    = [0; 1; 0]
  ∧ vertexAttribute
      (vertexData (F32 := float) 2 id [(0, 0, 0); (1, 0, 0)] [] [] [] []) 2 1
    = [1; 0].
Proof.
  split; [reflexivity |].
  destruct (attribute_pointers_match_the_interleaving (F32 := float) 2 id
              [(0, 0, 0); (1, 0, 0)] [] [] [] [] 1 1 0 0 eq_refl)
    as (Hpos & Hnormal & Huv & _).
  by repeat split.
Defined.

(** The message for the key 30, pressed. *)
Lemma key_30_pressed_reaches_the_handler :
  hasKeyboardHandler inputServer = true
  ∧ handleMessage inputServer true
      [Byte.x01; Byte.x1e; Byte.x00; Byte.x00; Byte.x00; Byte.x01]
    = Done (Some (KeyboardCall 30 true)).
Proof.
  split; [reflexivity |].
  refine (keyboard_message_reaches_the_handler inputServer 30 Byte.x01 []
            eq_refl _); lia.
Defined.

(** A left click at the bit patterns 5 and 6. *)
Lemma click_reaches_the_handler :
  hasMouseHandler inputServer = true
  ∧ handleMessage inputServer true
      (Byte.x02 :: Byte.x01 :: PutUint32 5 ++ PutUint32 6 ++ PutUint32 272
         ++ Byte.x01 :: PutUint32 0 ++ [])
    = Done (Some (MouseCall 1 5 6 272 true 0)).
Proof.
  split; [reflexivity |].
  refine (mouse_message_reaches_the_handler inputServer Byte.x01 Byte.x01
            5 6 272 0 [] eq_refl _ _ _ _); lia.
Defined.

End MoreScenarios.
